(** * userexit: exceptions that end a command-line program with a message

    A shallow embedding of [userexit.py] (the classes [UserExit] and
    [UserAbort], the helpers [format_script] and [format_msg], the
    method [UserExit.__str__] and the decorator [UserExit.handle]),
    of the class statements of [test_userexit.py] and [demo.py], and of
    the parts of Python the module relies on: class creation with the
    C3 method resolution order, attribute lookup along it, [str] of an
    exception, [str.format] with its format specifications,
    [str.strip], [textwrap.dedent] and [textwrap.fill], as CPython 3.11
    has them on a 64-bit build.  A text is a list of characters with
    the code points U+0000 to U+00FF. *)

From Stdlib Require Import ZArith String Ascii List Bool Lia DecimalString.
From stdpp Require Import base option list.
Import ListNotations.

Local Open Scope nat_scope.
Set Warnings "-register-all".

(** ** Python values, classes and instances *)

(** The values a program passes to an exception's constructor.  The
    characters of a string are the code points U+0000 to U+00FF; a tuple
    is what [self.args] holds, a list what [sys.argv] is. *)
Inductive pyval :=
| VNone
| VBool (b : bool)
| VInt (z : Z)
| VStr (s : string)
| VList (l : list pyval)
| VTuple (l : list pyval).

(** A class is named by its position in the table of the classes created
    so far: a class statement appends one entry and changes no other. *)
Definition class_id := nat.

(** The functions that a class of this development can have as its
    [__str__]: the slots of [object], [BaseException], [AttributeError]
    and [KeyError], and the function [userexit.py] defines in
    [UserExit]. *)
Inductive str_method :=
| StrObject
| StrBaseException
| StrAttributeError
| StrKeyError
| StrUserExit.

(** The class body: the attributes [userexit] reads, and [__str__].
    [None] is an attribute the body does not assign. *)
Record namespace := Namespace {
  ns_exit_status : option Z;
  ns_message : option string;
  ns_prefix_name : option bool;
  ns_prefix_error : option bool;
  ns_str : option str_method }.

Definition empty_ns : namespace := Namespace None None None None None.

(** The body of a builtin class that has a [__str__] of its own. *)
Definition str_ns (m : str_method) : namespace :=
  Namespace None None None None (Some m).

Record pyclass := PyClass {
  cls_name : string;
  cls_bases : list class_id;
  cls_mro : list class_id;
  cls_dict : namespace }.

Abbreviation class_table := (list pyclass).

(** An instance: its class and the positional arguments of its
    constructor ([BaseException.args]). *)
Record instance := Instance {
  inst_class : class_id;
  inst_args : list pyval }.

(** The outcome of a computation: a value, a raised exception, or
    [Outside] when the input leaves the part of Python modelled here. *)
Inductive result (A : Type) :=
| Ok (a : A)
| Raise (e : instance)
| Outside (why : string).
Arguments Ok {A} a.
Arguments Raise {A} e.
Arguments Outside {A} why.

Definition rbind {A B} (r : result A) (k : A -> result B) : result B :=
  match r with
  | Ok a => k a
  | Raise e => Raise e
  | Outside w => Outside w
  end.

Notation "'let*' x ':=' r 'in' k" := (rbind r (fun x => k))
  (at level 10, x name, r at level 100, k at level 200, only parsing).

(** ** The builtin classes *)

Definition object_id : class_id := 0.
Definition BaseException_id : class_id := 1.
Definition SystemExit_id : class_id := 2.
Definition Exception_id : class_id := 3.
Definition TypeError_id : class_id := 4.
Definition ValueError_id : class_id := 5.
Definition AttributeError_id : class_id := 6.
Definition LookupError_id : class_id := 7.
Definition IndexError_id : class_id := 8.
Definition KeyError_id : class_id := 9.

(** [AttributeError] has a [__str__] slot of its own, which does what
    the one of [BaseException] does. *)
Definition builtins : class_table :=
  [ PyClass "object" [] [0] (str_ns StrObject);
    PyClass "BaseException" [0] [1; 0] (str_ns StrBaseException);
    PyClass "SystemExit" [1] [2; 1; 0] empty_ns;
    PyClass "Exception" [1] [3; 1; 0] empty_ns;
    PyClass "TypeError" [3] [4; 3; 1; 0] empty_ns;
    PyClass "ValueError" [3] [5; 3; 1; 0] empty_ns;
    PyClass "AttributeError" [3] [6; 3; 1; 0] (str_ns StrAttributeError);
    PyClass "LookupError" [3] [7; 3; 1; 0] empty_ns;
    PyClass "IndexError" [7] [8; 7; 3; 1; 0] empty_ns;
    PyClass "KeyError" [7] [9; 7; 3; 1; 0] (str_ns StrKeyError) ].

Definition exc (c : class_id) (msg : string) : instance :=
  Instance c [VStr msg].

(** ** Class creation: the C3 linearization *)

Definition in_tail (c : class_id) (s : list class_id) : bool :=
  match s with
  | [] => false
  | _ :: t => existsb (Nat.eqb c) t
  end.

(** A head is a candidate when no sequence has it in its tail. *)
Definition good_head (seqs : list (list class_id)) (c : class_id) : bool :=
  forallb (fun s => negb (in_tail c s)) seqs.

Fixpoint find_candidate (seqs rest : list (list class_id)) : option class_id :=
  match rest with
  | [] => None
  | [] :: rest' => find_candidate seqs rest'
  | (c :: _) :: rest' =>
      if good_head seqs c then Some c else find_candidate seqs rest'
  end.

Definition drop_head (c : class_id) (s : list class_id) : list class_id :=
  match s with
  | h :: t => if Nat.eqb h c then t else s
  | [] => []
  end.

Definition is_nil (s : list class_id) : bool :=
  match s with [] => true | _ => false end.

Definition total_len (seqs : list (list class_id)) : nat :=
  list_sum (map (@length class_id) seqs).

(** The merge of the linearizations of the bases and the list of the
    bases.  [None] is the [TypeError] of an inconsistent hierarchy. *)
Fixpoint merge_aux (fuel : nat) (seqs : list (list class_id))
  : option (list class_id) :=
  if forallb is_nil seqs then Some []
  else match fuel with
       | 0 => None
       | S fuel' =>
           match find_candidate seqs seqs with
           | None => None
           | Some c =>
               option_map (cons c) (merge_aux fuel' (map (drop_head c) seqs))
           end
       end.

Definition merge (seqs : list (list class_id)) : option (list class_id) :=
  merge_aux (total_len seqs) seqs.

(** A class statement: [class name(bases): body]. *)
Record class_stmt := ClassStmt {
  st_name : string;
  st_bases : list class_id;
  st_body : namespace }.

Definition mro_of (ct : class_table) (c : class_id) : option (list class_id) :=
  cls_mro <$> ct !! c.

Fixpoint all_some {A} (l : list (option A)) : option (list A) :=
  match l with
  | [] => Some []
  | None :: _ => None
  | Some a :: l' => option_map (cons a) (all_some l')
  end.

Fixpoint has_dup (l : list class_id) : bool :=
  match l with
  | [] => false
  | c :: l' => existsb (Nat.eqb c) l' || has_dup l'
  end.

(** [type.__new__]: an empty list of bases stands for [(object,)]; a
    repeated base and an inconsistent order both raise [TypeError].  The
    new class takes the next free position of the table.  The check of
    the instance layouts of the bases is left out: a statement that
    CPython refuses for that reason alone ([class A(SystemExit,
    AttributeError)]) succeeds here, and every statement that CPython
    accepts gives the class it gives there. *)
Definition declare (ct : class_table) (s : class_stmt)
  : result (class_table * class_id) :=
  let bases := match st_bases s with [] => [object_id] | bs => bs end in
  match all_some (map (mro_of ct) bases) with
  | None => Outside "base class not in the table"
  | Some mros =>
      if has_dup bases then Raise (exc TypeError_id "duplicate base class")
      else match merge (mros ++ [bases]) with
           | None =>
               Raise (exc TypeError_id
                        "Cannot create a consistent method resolution order (MRO)")
           | Some tl =>
               let c := length ct in
               Ok (ct ++ [PyClass (st_name s) bases (c :: tl) (st_body s)], c)
           end
  end.

(** A module body made of class statements, run from top to bottom; the
    first exception ends it. *)
Fixpoint declare_all (ct : class_table) (ss : list class_stmt)
  : result class_table :=
  match ss with
  | [] => Ok ct
  | s :: ss' =>
      let* r := declare ct s in declare_all (fst r) ss'
  end.

(** ** Attribute lookup *)

(** [type.__getattribute__] restricted to data attributes: the first
    class of the method resolution order whose body assigns the
    attribute gives the value. *)
Fixpoint lookup_mro {A} (ct : class_table) (f : namespace -> option A)
  (mro : list class_id) : option A :=
  match mro with
  | [] => None
  | c :: mro' =>
      match ct !! c with
      | Some k =>
          match f (cls_dict k) with
          | Some v => Some v
          | None => lookup_mro ct f mro'
          end
      | None => lookup_mro ct f mro'
      end
  end.

Definition class_attr {A} (ct : class_table) (f : namespace -> option A)
  (c : class_id) : option A :=
  match ct !! c with
  | Some k => lookup_mro ct f (cls_mro k)
  | None => None
  end.

Definition exit_status_of (ct : class_table) (c : class_id) : option Z :=
  class_attr ct ns_exit_status c.

(** [issubclass(c, d)]. *)
Definition issubclass (ct : class_table) (c d : class_id) : bool :=
  match ct !! c with
  | Some k => existsb (Nat.eqb d) (cls_mro k)
  | None => false
  end.

Definition isinstance (ct : class_table) (x : instance) (d : class_id) : bool :=
  issubclass ct (inst_class x) d.

(** ** The classes of [userexit.py] *)

Definition UserExit_stmt : class_stmt :=
  ClassStmt "UserExit" [Exception_id]
    (Namespace (Some 0%Z) (Some "Execution ended normally."%string)
       (Some true) (Some true) (Some StrUserExit)).

Definition UserExit_id : class_id := 10.

Definition UserAbort_stmt : class_stmt :=
  ClassStmt "UserAbort" [UserExit_id]
    (Namespace (Some 1%Z) (Some "Execution aborted with an error."%string)
       None (Some false) None).

Definition UserAbort_id : class_id := 11.

Definition userexit_stmts : list class_stmt := [UserExit_stmt; UserAbort_stmt].

Definition userexit_classes : class_table :=
  builtins ++
  [ PyClass "UserExit" [3] [10; 3; 1; 0] (st_body UserExit_stmt);
    PyClass "UserAbort" [10] [11; 10; 3; 1; 0] (st_body UserAbort_stmt) ].

(** ** Text: the [str] methods and the [textwrap] functions used *)

(** A character is a code point from U+0000 to U+00FF. *)
Abbreviation text := (list ascii).

Definition ord (c : ascii) : nat := nat_of_ascii c.
Definition nl : ascii := ascii_of_nat 10.
Definition tab : ascii := ascii_of_nat 9.
Definition space : ascii := ascii_of_nat 32.
Definition hyphen : ascii := ascii_of_nat 45.

(** [n] lies in one of the ranges, bounds included. *)
Definition in_ranges (n : nat) (rs : list (nat * nat)) : bool :=
  existsb (fun r => (fst r <=? n) && (n <=? snd r)) rs.

(** [str.isspace] on U+0000 to U+00FF: TAB to CR, FS to US, the space,
    NEL (U+0085) and the no-break space (U+00A0). *)
Definition isspace (c : ascii) : bool :=
  in_ranges (ord c) [(9, 13); (28, 32); (133, 133); (160, 160)].

(** [str.isprintable] on U+0000 to U+00FF. *)
Definition isprintable (c : ascii) : bool :=
  in_ranges (ord c) [(32, 126); (161, 172); (174, 255)].

Fixpoint lstrip (l : text) : text :=
  match l with
  | c :: l' => if isspace c then lstrip l' else l
  | [] => []
  end.

Definition rstrip (l : text) : text := rev (lstrip (rev l)).

(** [str.strip()]. *)
Definition strip (l : text) : text := rstrip (lstrip l).

Fixpoint startswith (p l : text) : bool :=
  match p, l with
  | [], _ => true
  | a :: p', b :: l' => Ascii.eqb a b && startswith p' l'
  | _ :: _, [] => false
  end.

(** [needle in l]. *)
Fixpoint contains (needle l : text) : bool :=
  startswith needle l ||
  match l with
  | [] => false
  | _ :: l' => contains needle l'
  end.

(** [l.split('\n')]. *)
Fixpoint split_lines (cur l : text) : list text :=
  match l with
  | [] => [rev cur]
  | c :: l' =>
      if Ascii.eqb c nl then rev cur :: split_lines [] l'
      else split_lines (c :: cur) l'
  end.

(** [l.split('\n\n')]: the separators are found from left to right and
    do not overlap. *)
Fixpoint split_paras (cur l : text) : list text :=
  match l with
  | [] => [rev cur]
  | c :: l' =>
      match l' with
      | d :: l'' =>
          if Ascii.eqb c nl && Ascii.eqb d nl then rev cur :: split_paras [] l''
          else split_paras (c :: cur) l'
      | [] => [rev (c :: cur)]
      end
  end.

(** [sep.join(ls)]. *)
Fixpoint join (sep : text) (ls : list text) : text :=
  match ls with
  | [] => []
  | [l] => l
  | l :: ls' => l ++ sep ++ join sep ls'
  end.

Module textwrap.

(** The six characters of [textwrap._whitespace]. *)
Definition is_ws (c : ascii) : bool :=
  let n := ord c in ((9 <=? n) && (n <=? 13)) || (n =? 32).

Definition is_blank (c : ascii) : bool :=
  Ascii.eqb c space || Ascii.eqb c tab.

(** *** [dedent] *)

(** [_whitespace_only_re.sub('', text)], line by line. *)
Definition clear_blank_line (l : text) : text :=
  if forallb is_blank l then [] else l.

Fixpoint leading_blanks (l : text) : text :=
  match l with
  | c :: l' => if is_blank c then c :: leading_blanks l' else []
  | [] => []
  end.

(** [_leading_whitespace_re.findall(text)]: the indentation of each
    line that has a character other than a space or a tab. *)
Definition indent_of (l : text) : option text :=
  if forallb is_blank l then None else Some (leading_blanks l).

Fixpoint first_diff (i : nat) (m ind : text) : option nat :=
  match m, ind with
  | x :: m', y :: ind' =>
      if Ascii.eqb x y then first_diff (S i) m' ind' else Some i
  | _, _ => None
  end.

Definition update_margin (margin : option text) (ind : text) : option text :=
  match margin with
  | None => Some ind
  | Some m =>
      if startswith m ind then Some m
      else if startswith ind m then Some ind
      else match first_diff 0 m ind with
           | Some i => Some (take i m)
           | None => Some m
           end
  end.

Definition remove_margin (m l : text) : text :=
  if startswith m l then drop (length m) l else l.

Definition dedent (t : text) : text :=
  let ls := map clear_blank_line (split_lines [] t) in
  let indents := omap indent_of ls in
  match fold_left update_margin indents None with
  | Some (c :: m) => join [nl] (map (remove_margin (c :: m)) ls)
  | _ => join [nl] ls
  end.

(** *** [fill], with the defaults of [TextWrapper] *)

Definition width : nat := 70.
Definition tabsize : nat := 8.

(** [str.expandtabs(8)]. *)
Fixpoint expandtabs (col : nat) (l : text) : text :=
  match l with
  | [] => []
  | c :: l' =>
      if Ascii.eqb c tab then
        let incr := tabsize - col mod tabsize in
        repeat space incr ++ expandtabs (col + incr) l'
      else if Ascii.eqb c nl || Ascii.eqb c (ascii_of_nat 13) then
        c :: expandtabs 0 l'
      else c :: expandtabs (S col) l'
  end.

Definition munge_whitespace (l : text) : text :=
  map (fun c => if is_ws c then space else c) (expandtabs 0 l).

(** The character classes of [wordsep_re] on U+0000 to U+00FF: [\d],
    and [[^\d\W]], the letters, the underscore and the characters that
    [str.isalnum] accepts without their being decimal digits (the
    superscript digits and the fractions). *)
Definition is_digit (c : ascii) : bool :=
  let n := ord c in (48 <=? n) && (n <=? 57).

Definition is_letter (c : ascii) : bool :=
  in_ranges (ord c)
    [(65, 90); (95, 95); (97, 122); (170, 170); (178, 179); (181, 181);
     (185, 186); (188, 190); (192, 214); (216, 246); (248, 255)].

Definition is_word (c : ascii) : bool := is_letter c || is_digit c.

Definition is_word_punct (c : ascii) : bool :=
  is_word c || existsb (Nat.eqb (ord c)) [33; 34; 39; 38; 46; 44; 63].

Fixpoint span (p : ascii -> bool) (l : text) : text * text :=
  match l with
  | c :: l' =>
      if p c then let (a, b) := span p l' in (c :: a, b) else ([], l)
  | [] => ([], [])
  end.

(** [-{2,}] followed by [\w]: the length of the run of hyphens. *)
Definition em_dash (l : text) : option nat :=
  let (hs, rest) := span (Ascii.eqb hyphen) l in
  match rest with
  | c :: _ => if (2 <=? length hs) && is_word c then Some (length hs) else None
  | [] => None
  end.

Definition preceded_by (p : ascii -> bool) (before : text) : bool :=
  match before with
  | c :: _ => p c
  | [] => false
  end.

(** The hyphen of a hyphenated word: [before] holds the text to the left
    of the hyphen, nearest character first, [after] the text to its
    right. *)
Definition hyphen_break (before after : text) : bool :=
  (match before with
   | a :: b :: rest =>
       (is_letter a && is_letter b) ||
       (is_letter a && Ascii.eqb b hyphen && preceded_by is_letter rest)
   | _ => false
   end) &&
  (match after with
   | a :: b :: rest =>
       is_letter a && (is_letter b || (Ascii.eqb b hyphen && preceded_by is_letter rest))
   | _ => false
   end).

(** The lazy [nws+?] of a word once its first character is taken: how
    many more characters the chunk takes. *)
Fixpoint word_more (before l : text) : nat :=
  match l with
  | [] => 0
  | c :: l' =>
      if Ascii.eqb c hyphen && hyphen_break before l' then 1
      else if is_ws c then 0
      else if preceded_by is_word_punct before && bool_decide (is_Some (em_dash l))
      then 0
      else S (word_more (c :: before) l')
  end.

(** The length of the match of [wordsep_re] at the start of [l]. *)
Definition chunk_len (before l : text) : nat :=
  match l with
  | [] => 0
  | c :: l' =>
      if is_ws c then length (fst (span is_ws l))
      else match (if preceded_by is_word_punct before then em_dash l else None) with
           | Some n => n
           | None => S (word_more (c :: before) l')
           end
  end.

(** [_split]: the chunks of [wordsep_re.split], empty ones removed. *)
Fixpoint split_chunks (fuel : nat) (before l : text) : list text :=
  match fuel, l with
  | _, [] => []
  | 0, _ => [l]
  | S fuel', _ =>
      let n := chunk_len before l in
      take n l :: split_chunks fuel' (rev (take n l) ++ before) (drop n l)
  end.

(** [chunk.strip() == '']. *)
Definition blank_chunk (c : text) : bool := forallb isspace c.

(** The inner loop of [_wrap_chunks]: the chunks that fit on the line. *)
Fixpoint take_fitting (cur_len : nat) (chunks : list text)
  : list text * nat * list text :=
  match chunks with
  | c :: chunks' =>
      if cur_len + length c <=? width then
        let '(line, len, rest) := take_fitting (cur_len + length c) chunks' in
        (c :: line, len, rest)
      else ([], cur_len, chunks)
  | [] => ([], cur_len, [])
  end.

(** [chunk.rfind('-', 0, n)]. *)
Fixpoint rfind_hyphen (i n : nat) (c : text) : option nat :=
  match n, c with
  | S n', x :: c' =>
      match rfind_hyphen (S i) n' c' with
      | Some j => Some j
      | None => if Ascii.eqb x hyphen then Some i else None
      end
  | _, _ => None
  end.

(** [_handle_long_word]: where the chunk at the head is cut. *)
Definition long_word_cut (chunk : text) (space_left : nat) : nat :=
  if space_left <? length chunk then
    match rfind_hyphen 0 space_left chunk with
    | Some h =>
        if (0 <? h) && existsb (fun c => negb (Ascii.eqb c hyphen)) (take h chunk)
        then S h else space_left
    | None => space_left
    end
  else space_left.

Definition drop_last_blank (line : list text) : list text :=
  match rev line with
  | c :: r => if blank_chunk c then rev r else line
  | [] => line
  end.

(** [_wrap_chunks]: one round of the outer loop per unit of fuel. *)
Fixpoint wrap_chunks (fuel : nat) (lines : list text) (chunks : list text)
  : list text :=
  match fuel, chunks with
  | _, [] => lines
  | 0, _ => lines
  | S fuel', c0 :: rest0 =>
      let chunks1 :=
        if blank_chunk c0 && negb (bool_decide (lines = [])) then rest0 else chunks in
      let '(line, cur_len, rest) := take_fitting 0 chunks1 in
      let '(line2, rest2) :=
        match rest with
        | c :: rest' =>
            if width <? length c then
              let e := long_word_cut c (width - cur_len) in
              (line ++ [take e c], drop e c :: rest')
            else (line, rest)
        | [] => (line, rest)
        end in
      let line3 := drop_last_blank line2 in
      match line3 with
      | [] => wrap_chunks fuel' lines rest2
      | _ => wrap_chunks fuel' (lines ++ [concat line3]) rest2
      end
  end.

Definition wrap (t : text) : list text :=
  let m := munge_whitespace t in
  wrap_chunks (S (length m)) [] (split_chunks (length m) [] m).

(** [textwrap.fill(t)]. *)
Definition fill (t : text) : text := join [nl] (wrap t).

End textwrap.

(** ** [str], [repr] and [ascii] of values *)

Definition lit (s : string) : text := list_ascii_of_string s.

Definition Z_text (z : Z) : text := lit (NilZero.string_of_int (Z.to_int z)).

Definition N_text (n : N) : text := Z_text (Z.of_N n).

Definition hex_digit (n : nat) : ascii :=
  if n <? 10 then ascii_of_nat (48 + n) else ascii_of_nat (87 + n).

Definition quote1 : ascii := ascii_of_nat 39.
Definition quote2 : ascii := ascii_of_nat 34.
Definition backslash : ascii := ascii_of_nat 92.

(** The escape [\xNN] of a character. *)
Definition hex_escape (c : ascii) : text :=
  [backslash; "x"%char; hex_digit (ord c / 16); hex_digit (ord c mod 16)].

(** One character of [repr] of a string quoted with [q]. *)
Definition repr_char (q c : ascii) : text :=
  let n := ord c in
  if Ascii.eqb c q || Ascii.eqb c backslash then [backslash; c]
  else if n =? 9 then lit "\t"
  else if n =? 10 then lit "\n"
  else if n =? 13 then lit "\r"
  else if isprintable c then [c]
  else hex_escape c.

(** [repr] of a string: single quotes, unless the string has a single
    quote and no double quote. *)
Definition repr_str (s : text) : text :=
  let q := if existsb (Ascii.eqb quote1) s && negb (existsb (Ascii.eqb quote2) s)
           then quote2 else quote1 in
  [q] ++ concat (map (repr_char q) s) ++ [q].

Fixpoint repr (v : pyval) : text :=
  match v with
  | VNone => lit "None"
  | VBool true => lit "True"
  | VBool false => lit "False"
  | VInt z => Z_text z
  | VStr s => repr_str (lit s)
  | VList l => lit "[" ++ join (lit ", ") (map repr l) ++ lit "]"
  | VTuple [x] => lit "(" ++ repr x ++ lit ",)"
  | VTuple l => lit "(" ++ join (lit ", ") (map repr l) ++ lit ")"
  end.

Definition str (v : pyval) : text :=
  match v with
  | VStr s => lit s
  | _ => repr v
  end.

(** [ascii(v)]: [repr(v)] with the characters above U+007F escaped. *)
Definition escape_non_ascii (t : text) : text :=
  concat (map (fun c => if ord c <? 128 then [c] else hex_escape c) t).

(** ** [str] and [repr] of an exception *)

(** [BaseException.__str__]: nothing, the one argument, or the tuple of
    the arguments. *)
Definition BaseException_str (args : list pyval) : text :=
  match args with
  | [] => []
  | [a] => str a
  | _ => str (VTuple args)
  end.

(** [KeyError.__str__]: [repr] of the one argument. *)
Definition KeyError_str (args : list pyval) : text :=
  match args with
  | [a] => repr a
  | _ => BaseException_str args
  end.

(** [BaseException.__repr__] for an instance of a class named [name]. *)
Definition BaseException_repr (name : string) (args : list pyval) : text :=
  match args with
  | [a] => lit name ++ lit "(" ++ repr a ++ lit ")"
  | _ => lit name ++ repr (VTuple args)
  end.

(** ** [str.format] *)

Module fmt.

(** What a replacement field can name: a value, or the exception that
    is being rendered (the keyword argument [self]). *)
Inductive fobj :=
| FVal (v : pyval)
| FSelf (x : instance).

Record env := Env {
  env_classes : class_table;
  env_args : list pyval;
  env_kwargs : list (string * fobj) }.

Definition ValueError (msg : string) {A} : result A :=
  Raise (exc ValueError_id msg).

(** An exception of class [c] whose message is the text [msg]. *)
Definition raise_text {A} (c : class_id) (msg : text) : result A :=
  Raise (exc c (string_of_list_ascii msg)).

Definition lbrace : ascii := ascii_of_nat 123.
Definition rbrace : ascii := ascii_of_nat 125.
Definition lbracket : ascii := ascii_of_nat 91.
Definition rbracket : ascii := ascii_of_nat 93.
Definition colon : ascii := ascii_of_nat 58.
Definition bang : ascii := ascii_of_nat 33.
Definition dot : ascii := ascii_of_nat 46.

(** The first loop of [parse_field]: the field name, the character that
    ends it and the text after that character. *)
Fixpoint scan_field_name (in_bracket : bool) (acc l : text)
  : result (text * ascii * text) :=
  match l with
  | [] => ValueError "expected '}' before end of string"
  | c :: l' =>
      if in_bracket then
        scan_field_name (negb (Ascii.eqb c rbracket)) (c :: acc) l'
      else if Ascii.eqb c lbrace then
        ValueError "unexpected '{' in field name"
      else if Ascii.eqb c lbracket then scan_field_name true (c :: acc) l'
      else if Ascii.eqb c rbrace || Ascii.eqb c colon || Ascii.eqb c bang then
        Ok (rev acc, c, l')
      else scan_field_name false (c :: acc) l'
  end.

(** The last loop of [parse_field]: the format specifier up to the brace
    that closes the field, and whether it has a nested field. *)
Fixpoint scan_spec (count : nat) (nested : bool) (acc l : text)
  : result (text * bool * text) :=
  match l with
  | [] => ValueError "unmatched '{' in format spec"
  | c :: l' =>
      if Ascii.eqb c lbrace then scan_spec (S count) true (c :: acc) l'
      else if Ascii.eqb c rbrace then
        match count with
        | 0 => Ok (rev acc, nested, l')
        | S count' => scan_spec count' nested (c :: acc) l'
        end
      else scan_spec count nested (c :: acc) l'
  end.

Record field := Field {
  f_name : text;
  f_conversion : option ascii;
  f_spec : text;
  f_nested : bool }.

(** [parse_field], on the text after the opening brace. *)
Definition parse_field (l : text) : result (field * text) :=
  let* r := scan_field_name false [] l in
  let '(name, c, rest) := r in
  let spec (conv : option ascii) (l : text) :=
    let* s := scan_spec 0 false [] l in
    let '(sp, nested, rest') := s in
    Ok (Field name conv sp nested, rest') in
  if Ascii.eqb c bang then
    match rest with
    | [] => ValueError "end of string while looking for conversion specifier"
    | conv :: rest1 =>
        match rest1 with
        | [] => spec (Some conv) []
        | d :: rest2 =>
            if Ascii.eqb d rbrace then Ok (Field name (Some conv) [] false, rest2)
            else if Ascii.eqb d colon then spec (Some conv) rest2
            else ValueError "expected ':' after conversion specifier"
        end
    end
  else if Ascii.eqb c colon then spec None rest
  else Ok (Field name None [] false, rest).

Definition is_digit (c : ascii) : bool :=
  let n := ord c in (48 <=? n) && (n <=? 57).

(** The largest [Py_ssize_t] of a 64-bit build. *)
Definition PY_SSIZE_T_MAX : N := 9223372036854775807.

Definition too_many_digits {A} : result A :=
  ValueError "Too many decimal digits in format string".

(** The loop of [get_integer]: the digits are read from left to right;
    a character that is no digit ends the loop without a number, a
    number above [PY_SSIZE_T_MAX] is an error as soon as it is met. *)
Fixpoint get_integer_loop (acc : N) (l : text) : result (option N) :=
  match l with
  | [] => Ok (Some acc)
  | c :: l' =>
      if is_digit c then
        let d := N.of_nat (ord c - 48) in
        if ((PY_SSIZE_T_MAX - d) / 10 <? acc)%N then too_many_digits
        else get_integer_loop (10 * acc + d) l'
      else Ok None
  end.

(** [get_integer] of a field name or of the key of an accessor: the
    number a text of digits writes, or [None] (the -1 of the source)
    for the empty text and for a text that is no number. *)
Definition get_integer (l : text) : result (option N) :=
  match l with
  | [] => Ok None
  | _ => get_integer_loop 0 l
  end.

(** The text up to the first of the characters [stop], and the rest. *)
Fixpoint until (stop : ascii -> bool) (l : text) : text * text :=
  match l with
  | c :: l' =>
      if stop c then ([], l) else let (a, b) := until stop l' in (c :: a, b)
  | [] => ([], [])
  end.

Definition dot_or_bracket (c : ascii) : bool :=
  Ascii.eqb c dot || Ascii.eqb c lbracket.

(** The state of the automatic numbering of fields. *)
Inductive autonumber :=
| ANS_INIT
| ANS_AUTO (next : N)
| ANS_MANUAL.

(** [type(o).__name__]. *)
Definition value_type (v : pyval) : string :=
  match v with
  | VNone => "NoneType"
  | VBool _ => "bool"
  | VInt _ => "int"
  | VStr _ => "str"
  | VList _ => "list"
  | VTuple _ => "tuple"
  end.

Definition type_name (ct : class_table) (o : fobj) : result string :=
  match o with
  | FVal v => Ok (value_type v)
  | FSelf x =>
      match ct !! inst_class x with
      | Some k => Ok (cls_name k)
      | None => Outside "instance of a class that is not in the table"
      end
  end.

(** [l[i]] for an index that is not negative. *)
Definition nth_N {A} (l : list A) (i : N) : option A :=
  if (i <? N.of_nat (length l))%N then l !! N.to_nat i else None.

Definition not_subscriptable (ct : class_table) (o : fobj) {A} : result A :=
  let* n := type_name ct o in
  raise_text TypeError_id (lit "'" ++ lit n ++ lit "' object is not subscriptable").

(** [getitem_sequence], [getitem_idx] and [getitem_str]: [o[idx]] when
    the key is a number, [o[key]] with the key as a string when it is
    not. *)
Definition getitem (ct : class_table) (o : fobj) (idx : option N)
  : result fobj :=
  match o, idx with
  | FVal (VList l), Some i =>
      match nth_N l i with
      | Some v => Ok (FVal v)
      | None => Raise (exc IndexError_id "list index out of range")
      end
  | FVal (VTuple l), Some i =>
      match nth_N l i with
      | Some v => Ok (FVal v)
      | None => Raise (exc IndexError_id "tuple index out of range")
      end
  | FVal (VStr s), Some i =>
      match nth_N (lit s) i with
      | Some c => Ok (FVal (VStr (String c EmptyString)))
      | None => Raise (exc IndexError_id "string index out of range")
      end
  | FVal (VList _), None =>
      Raise (exc TypeError_id "list indices must be integers or slices, not str")
  | FVal (VTuple _), None =>
      Raise (exc TypeError_id "tuple indices must be integers or slices, not str")
  | FVal (VStr _), None =>
      Raise (exc TypeError_id "string indices must be integers, not 'str'")
  | _, _ => not_subscriptable ct o
  end.

Definition no_attribute (ct : class_table) (o : fobj) (name : text) {A}
  : result A :=
  let* n := type_name ct o in
  raise_text AttributeError_id
    (lit "'" ++ lit n ++ lit "' object has no attribute '" ++ name ++ lit "'").

(** The attributes of the values, other than those whose name starts
    with two underscores: methods, and the four numbers an [int]
    holds. *)
Definition value_attributes (v : pyval) : list string :=
  match v with
  | VNone => []
  | VBool _ | VInt _ =>
      ["as_integer_ratio"; "bit_count"; "bit_length"; "conjugate";
       "denominator"; "from_bytes"; "imag"; "numerator"; "real";
       "to_bytes"]
  | VStr _ =>
      ["capitalize"; "casefold"; "center"; "count"; "encode"; "endswith";
       "expandtabs"; "find"; "format"; "format_map"; "index"; "isalnum";
       "isalpha"; "isascii"; "isdecimal"; "isdigit"; "isidentifier";
       "islower"; "isnumeric"; "isprintable"; "isspace"; "istitle";
       "isupper"; "join"; "ljust"; "lower"; "lstrip"; "maketrans";
       "partition"; "removeprefix"; "removesuffix"; "replace"; "rfind";
       "rindex"; "rjust"; "rpartition"; "rsplit"; "rstrip"; "split";
       "splitlines"; "startswith"; "strip"; "swapcase"; "title";
       "translate"; "upper"; "zfill"]
  | VList _ =>
      ["append"; "clear"; "copy"; "count"; "extend"; "index"; "insert";
       "pop"; "remove"; "reverse"; "sort"]
  | VTuple _ => ["count"; "index"]
  end%string.

(** The attributes of an exception that this model gives no value:
    the methods, and the members of [SystemExit] and
    [AttributeError]. *)
Definition exception_attributes : list string :=
  ["add_note"; "with_traceback"; "handle"; "code"; "name"; "obj"]%string.

Definition is_in (name : text) (names : list string) : bool :=
  existsb (String.eqb (string_of_list_ascii name)) names.

Definition attr_value {A} (inj : A -> pyval) (ct : class_table) (o : fobj)
  (name : text) (a : option A) : result fobj :=
  match a with
  | Some a => Ok (FVal (inj a))
  | None => no_attribute ct o name
  end.

(** [getattr(o, name)]: the attributes of the exception that this
    model holds (an instance has no attribute of its own besides
    [args]); a name that no object of the type has raises
    [AttributeError]; the other attributes (methods, names that start
    with two underscores) are outside the model. *)
Definition getattr (ct : class_table) (o : fobj) (name : text) : result fobj :=
  if startswith (lit "__") name then Outside "attribute with a reserved name"
  else
    match o with
    | FSelf x =>
        let named (n : string) := String.eqb (string_of_list_ascii name) n in
        if named "args"%string then Ok (FVal (VTuple (inst_args x)))
        else if named "exit_status"%string then
          attr_value VInt ct o name (class_attr ct ns_exit_status (inst_class x))
        else if named "message"%string then
          attr_value VStr ct o name (class_attr ct ns_message (inst_class x))
        else if named "prefix_name"%string then
          attr_value VBool ct o name (class_attr ct ns_prefix_name (inst_class x))
        else if named "prefix_error"%string then
          attr_value VBool ct o name (class_attr ct ns_prefix_error (inst_class x))
        else if is_in name exception_attributes then
          Outside "attribute of the exception that holds no plain value"
        else no_attribute ct o name
    | FVal v =>
        if is_in name (value_attributes v) then
          Outside "attribute of a value"
        else no_attribute ct o name
    end.

(** [FieldNameIterator]: the accessors after the first part of a field
    name, each applied as soon as it is read. *)
Fixpoint access (fuel : nat) (ct : class_table) (o : fobj) (l : text)
  : result fobj :=
  match fuel, l with
  | _, [] => Ok o
  | 0, _ => Outside "fuel"
  | S fuel', c :: l' =>
      if Ascii.eqb c dot then
        let (name, rest) := until dot_or_bracket l' in
        match name with
        | [] => ValueError "Empty attribute in format string"
        | _ => let* o' := getattr ct o name in access fuel' ct o' rest
        end
      else if Ascii.eqb c lbracket then
        let (key, rest) := until (Ascii.eqb rbracket) l' in
        match rest with
        | [] => ValueError "Missing ']' in format string"
        | _ :: rest' =>
            let* idx := get_integer key in
            match key with
            | [] => ValueError "Empty attribute in format string"
            | _ => let* o' := getitem ct o idx in access fuel' ct o' rest'
            end
        end
      else ValueError "Only '.' or '[' may follow ']' in format field specifier"
  end.

Fixpoint assoc (k : string) (l : list (string * fobj)) : option fobj :=
  match l with
  | [] => None
  | (k', v) :: l' => if String.eqb k k' then Some v else assoc k l'
  end.

(** [field_name_split] and [get_field_object]: the object a field name
    stands for, and the next state of the numbering. *)
Definition get_field_object (e : env) (an : autonumber) (name : text)
  : result (fobj * autonumber) :=
  let (first, rest) := until dot_or_bracket name in
  let* first_idx := get_integer first in
  let* r :=
    match first, first_idx with
    | [], _ =>
        match an with
        | ANS_MANUAL =>
            ValueError "cannot switch from manual field specification to automatic field numbering"
        | ANS_INIT => Ok (Some 0%N, ANS_AUTO 1)
        | ANS_AUTO n => Ok (Some n, ANS_AUTO (n + 1))
        end
    | _, Some i =>
        match an with
        | ANS_AUTO _ =>
            ValueError "cannot switch from automatic field numbering to manual field specification"
        | _ => Ok (Some i, ANS_MANUAL)
        end
    | _, None => Ok (None, an)
    end in
  let '(idx, an') := r in
  let* o :=
    match idx with
    | Some i =>
        match nth_N (env_args e) i with
        | Some v => Ok (FVal v)
        | None =>
            raise_text IndexError_id
              (lit "Replacement index " ++ N_text i ++
               lit " out of range for positional args tuple")
        end
    | None =>
        match assoc (string_of_list_ascii first) (env_kwargs e) with
        | Some o => Ok o
        | None => Raise (Instance KeyError_id [VStr (string_of_list_ascii first)])
        end
    end in
  let* o' := access (length rest) (env_classes e) o rest in
  Ok (o', an').

(** *** Conversions *)

(** The [__str__] slot of the builtin class [c], called on [x]: the
    slot wrapper refuses an object that is no instance of [c]. *)
Definition slot (ct : class_table) (x : instance) (c : class_id) (name : string)
  (t : text) : result text :=
  if isinstance ct x c then Ok t
  else
    let* n := type_name ct (FSelf x) in
    raise_text TypeError_id
      (lit "descriptor '__str__' requires a '" ++ lit name ++
       lit "' object but received a '" ++ lit n ++ lit "'").

(** [str(x)] by the [__str__] [m] that the class of [x] has, when it
    is one of a builtin class; [object.__str__] is [repr(x)], which for
    an exception is [BaseException.__repr__]. *)
Definition slot_str (ct : class_table) (x : instance) (m : str_method)
  : result text :=
  match m with
  | StrBaseException =>
      slot ct x BaseException_id "BaseException" (BaseException_str (inst_args x))
  | StrAttributeError =>
      slot ct x AttributeError_id "AttributeError"
        (BaseException_str (inst_args x))
  | StrKeyError =>
      slot ct x KeyError_id "KeyError" (KeyError_str (inst_args x))
  | StrObject =>
      if isinstance ct x BaseException_id then
        let* n := type_name ct (FSelf x) in
        Ok (BaseException_repr n (inst_args x))
      else Outside "object.__repr__"
  | StrUserExit => Outside "__str__ that calls itself without end"
  end.

(** [str(x)] for the exception [x] that is being rendered, by the
    [__str__] its class has.  Inside [UserExit.__str__] the call would
    run [UserExit.__str__] again, and so on without end. *)
Definition str_self (ct : class_table) (x : instance) : result text :=
  match class_attr ct ns_str (inst_class x) with
  | Some m => slot_str ct x m
  | None => Outside "no __str__"
  end.

Definition repr_obj (ct : class_table) (o : fobj) : result text :=
  match o with
  | FVal v => Ok (repr v)
  | FSelf x =>
      if isinstance ct x BaseException_id then
        let* n := type_name ct o in Ok (BaseException_repr n (inst_args x))
      else Outside "object.__repr__"
  end.

Definition str_obj (ct : class_table) (o : fobj) : result text :=
  match o with
  | FVal v => Ok (str v)
  | FSelf x => str_self ct x
  end.

(** The number [n] in hexadecimal, as [%x] writes it. *)
Fixpoint hex_loop (fuel : nat) (n : nat) (acc : text) : text :=
  match fuel with
  | 0 => acc
  | S fuel' =>
      let acc' := hex_digit (n mod 16) :: acc in
      if n / 16 =? 0 then acc' else hex_loop fuel' (n / 16) acc'
  end.

Definition hex_text (n : nat) : text := hex_loop (S n) n [].

(** A character in a message: itself when it lies between [lo] and
    [hi], bounds excluded, its code in hexadecimal when it does not. *)
Definition show_char (lo hi : nat) (c : ascii) : text :=
  if (lo <? ord c) && (ord c <? hi) then [c]
  else [backslash; "x"%char] ++ hex_text (ord c).

Definition as_str (t : text) : fobj := FVal (VStr (string_of_list_ascii t)).

(** [do_conversion]. *)
Definition do_conversion (ct : class_table) (o : fobj) (c : ascii)
  : result fobj :=
  if Ascii.eqb c "r" then let* t := repr_obj ct o in Ok (as_str t)
  else if Ascii.eqb c "s" then let* t := str_obj ct o in Ok (as_str t)
  else if Ascii.eqb c "a" then
    let* t := repr_obj ct o in Ok (as_str (escape_non_ascii t))
  else
    raise_text ValueError_id
      (lit "Unknown conversion specifier " ++ show_char 32 127 c).

(** *** The format specification *)

Inductive locale_type :=
| LT_NO_LOCALE
| LT_DEFAULT_LOCALE
| LT_UNDERSCORE_LOCALE
| LT_UNDER_FOUR_LOCALE.

Record InternalFormatSpec := FormatSpec {
  fill_char : ascii;
  align : ascii;
  alternate : bool;
  no_neg_0 : bool;
  sign : option ascii;
  width : option N;
  thousands_separators : locale_type;
  precision : option N;
  type : ascii }.

Definition is_alignment_token (c : ascii) : bool :=
  existsb (Ascii.eqb c) ["<"; ">"; "="; "^"]%char.

Definition is_sign_element (c : ascii) : bool :=
  existsb (Ascii.eqb c) [" "; "+"; "-"]%char.

(** [get_integer] of a specifier: the number the digits at the start of
    [l] write, how many digits there are, and the text after them. *)
Fixpoint spec_integer (acc : N) (n : nat) (l : text) : result (N * nat * text) :=
  match l with
  | c :: l' =>
      if is_digit c then
        let d := N.of_nat (ord c - 48) in
        if ((PY_SSIZE_T_MAX - d) / 10 <? acc)%N then too_many_digits
        else spec_integer (10 * acc + d) (S n) l'
      else Ok (acc, n, l)
  | [] => Ok (acc, n, l)
  end.

(** The character at the start of [l] when it satisfies [p]. *)
Definition eat (p : ascii -> bool) (l : text) : option ascii * text :=
  match l with
  | c :: r => if p c then (Some c, r) else (None, l)
  | [] => (None, l)
  end.

Definition invalid_comma_and_underscore {A} : result A :=
  ValueError "Cannot specify both ',' and '_'.".

Definition separator (t : locale_type) : ascii :=
  match t with
  | LT_DEFAULT_LOCALE => ","
  | _ => "_"
  end.

Definition invalid_thousands_separator_type (t : locale_type) (ty : ascii) {A}
  : result A :=
  raise_text ValueError_id
    (lit "Cannot specify '" ++ [separator t] ++ lit "' with '" ++
     show_char 32 128 ty ++ lit "'.").

Definition unknown_presentation_type (ty : ascii) (tp_name : string) {A}
  : result A :=
  raise_text ValueError_id
    (lit "Unknown format code '" ++ show_char 32 128 ty ++
     lit "' for object of type '" ++ lit tp_name ++ lit "'").

(** [parse_internal_render_format_spec]. *)
Definition parse_internal_render_format_spec (tp_name : string) (spec : text)
  (default_type default_align : ascii) : result InternalFormatSpec :=
  let '(fill, algn, fill_specified, align_specified, l1) :=
    match spec with
    | a :: b :: r =>
        if is_alignment_token b then (a, b, true, true, r)
        else if is_alignment_token a then (space, a, false, true, b :: r)
        else (space, default_align, false, false, spec)
    | [a] =>
        if is_alignment_token a then (space, a, false, true, [])
        else (space, default_align, false, false, spec)
    | [] => (space, default_align, false, false, spec)
    end in
  let (sgn, l2) := eat is_sign_element l1 in
  let (z, l3) := eat (Ascii.eqb "z") l2 in
  let (alt, l4) := eat (Ascii.eqb "#") l3 in
  let '(fill, algn, l5) :=
    match l4 with
    | c :: r =>
        if negb fill_specified && Ascii.eqb c "0" then
          ("0"%char,
           if negb align_specified && Ascii.eqb default_align ">"
           then "="%char else algn,
           r)
        else (fill, algn, l4)
    | [] => (fill, algn, l4)
    end in
  let* w := spec_integer 0 0 l5 in
  let '(wv, wn, l6) := w in
  let (comma, l7) := eat (Ascii.eqb ",") l6 in
  let th :=
    match comma with
    | Some _ => LT_DEFAULT_LOCALE
    | None => LT_NO_LOCALE
    end in
  let* u :=
    match l7 with
    | c :: r =>
        if Ascii.eqb c "_" then
          match th with
          | LT_NO_LOCALE => Ok (LT_UNDERSCORE_LOCALE, r)
          | _ => invalid_comma_and_underscore
          end
        else Ok (th, l7)
    | [] => Ok (th, l7)
    end in
  let '(th, l8) := u in
  let* _ :=
    match l8, th with
    | c :: _, LT_UNDERSCORE_LOCALE =>
        if Ascii.eqb c "," then invalid_comma_and_underscore else Ok tt
    | _, _ => Ok tt
    end in
  let* p :=
    match l8 with
    | c :: r =>
        if Ascii.eqb c "." then
          let* q := spec_integer 0 0 r in
          let '(pv, pn, r') := q in
          if pn =? 0 then ValueError "Format specifier missing precision"
          else Ok (Some pv, r')
        else Ok (None, l8)
    | [] => Ok (None, l8)
    end in
  let '(prec, l9) := p in
  let* ty :=
    match l9 with
    | [] => Ok default_type
    | [c] => Ok c
    | _ =>
        raise_text ValueError_id
          (lit "Invalid format specifier '" ++ spec ++
           lit "' for object of type '" ++ lit tp_name ++ lit "'")
    end in
  let* th :=
    match th with
    | LT_NO_LOCALE => Ok th
    | _ =>
        if existsb (Ascii.eqb ty) ["d"; "e"; "f"; "g"; "E"; "G"; "%"; "F"]%char
        then Ok th
        else if existsb (Ascii.eqb ty) ["b"; "o"; "x"; "X"]%char then
          match th with
          | LT_UNDERSCORE_LOCALE => Ok LT_UNDER_FOUR_LOCALE
          | _ => invalid_thousands_separator_type th ty
          end
        else invalid_thousands_separator_type th ty
    end in
  Ok (FormatSpec fill algn (bool_decide (is_Some alt)) (bool_decide (is_Some z))
        sgn (if wn =? 0 then None else Some wv) th prec ty).

(** A text longer than this is outside the model: whether the process
    can hold it depends on its memory. *)
Definition max_text : N := 1048576.

Definition padded (fill : ascii) (lpad rpad : N) (t : text) : text :=
  repeat fill (N.to_nat lpad) ++ t ++ repeat fill (N.to_nat rpad).

(** [format_string_internal]. *)
Definition format_string_internal (s : text) (f : InternalFormatSpec)
  : result text :=
  match sign f with
  | Some c =>
      if Ascii.eqb c " " then
        ValueError "Space not allowed in string format specifier"
      else ValueError "Sign not allowed in string format specifier"
  | None =>
      if no_neg_0 f then
        ValueError "Negative zero coercion (z) not allowed in string format specifier"
      else if alternate f then
        ValueError "Alternate form (#) not allowed in string format specifier"
      else if Ascii.eqb (align f) "=" then
        ValueError "'=' alignment not allowed in string format specifier"
      else
        let len := N.of_nat (length s) in
        let len :=
          match precision f with
          | Some p => N.min p len
          | None => len
          end in
        let total :=
          match width f with
          | Some w => N.max w len
          | None => len
          end in
        let lpad :=
          if Ascii.eqb (align f) ">" then total - len
          else if Ascii.eqb (align f) "^" then (total - len) / 2
          else 0 in
        if (max_text <? total)%N then Outside "text beyond the memory of the process"
        else Ok (padded (fill_char f) lpad (total - len - lpad)
                   (take (N.to_nat len) s))
  end%N.

(** The digits of [n] in base [b], the most significant first. *)
Fixpoint digits_loop (fuel : nat) (b n : N) (acc : text) : text :=
  match fuel with
  | 0 => acc
  | S fuel' =>
      let acc' := hex_digit (N.to_nat (n mod b)) :: acc in
      if (n / b =? 0)%N then acc' else digits_loop fuel' b (n / b) acc'
  end.

Definition digits (b n : N) : text :=
  digits_loop (S (N.to_nat (N.log2 n))) b n [].

Definition toupper (c : ascii) : ascii :=
  if (97 <=? ord c) && (ord c <=? 122) then ascii_of_nat (ord c - 32) else c.

(** [_PyUnicode_InsertThousandsGrouping] with groups of [g] digits: the
    digits come least significant first, the text is built from its
    right end. *)
Fixpoint group_digits (fuel : nat) (g : Z) (sep : ascii) (remaining : text)
  (min_width : Z) (use_separator : bool) (out : text) : text :=
  match fuel with
  | 0 => out
  | S fuel' =>
      let rem := Z.of_nat (length remaining) in
      let len := Z.min g (Z.max (Z.max rem min_width) 1) in
      let n_zeros := Z.max 0 (len - rem) in
      let n_chars := Z.max 0 (Z.min rem len) in
      let out' :=
        repeat "0"%char (Z.to_nat n_zeros) ++
        rev (take (Z.to_nat n_chars) remaining) ++
        (if use_separator then [sep] else []) ++ out in
      let remaining' := drop (Z.to_nat n_chars) remaining in
      let min_width' := (min_width - len)%Z in
      if bool_decide (remaining' = []) && (min_width' <=? 0)%Z then out'
      else group_digits fuel' g sep remaining' (min_width' - 1) true out'
  end.

(** The digits with their separators, and with zeros in front up to
    [min_width] characters. *)
Definition grouped (t : locale_type) (ds : text) (min_width : Z) : text :=
  let min_width := Z.max 0 min_width in
  match t with
  | LT_NO_LOCALE =>
      let len := Z.max (Z.max (Z.of_nat (length ds)) min_width) 1 in
      repeat "0"%char (Z.to_nat (len - Z.of_nat (length ds))) ++ ds
  | _ =>
      group_digits (length ds + Z.to_nat min_width + 1)
        (match t with LT_UNDER_FOUR_LOCALE => 4 | _ => 3 end) (separator t)
        (rev ds) min_width false []
  end.

(** [calc_number_widths] and [fill_number]: the sign, the prefix, the
    digits [ds] with their separators and the remainder (what follows
    the digits), padded to the width. *)
Definition fill_number (f : InternalFormatSpec) (locale : locale_type)
  (negative : bool) (prefix ds remainder : text) : result text :=
  let sign_text :=
    match sign f with
    | Some c =>
        if Ascii.eqb c "+" then [if negative then "-"%char else "+"%char]
        else if Ascii.eqb c " " then [if negative then "-"%char else " "%char]
        else if negative then ["-"%char] else []
    | None => if negative then ["-"%char] else []
    end in
  let w := match width f with Some w => Z.of_N w | None => (-1)%Z end in
  if (Z.of_N max_text <? w)%Z then Outside "text beyond the memory of the process"
  else
    let n_non_digit :=
      Z.of_nat (length sign_text + length prefix + length remainder) in
    let min_width :=
      if Ascii.eqb (fill_char f) "0" && Ascii.eqb (align f) "="
      then (w - n_non_digit)%Z else 0%Z in
    let body :=
      match ds with
      | [] => []
      | _ => grouped locale ds min_width
      end in
    let n_padding := Z.to_N (w - (n_non_digit + Z.of_nat (length body))) in
    let '(lpad, spad, rpad) :=
      (if Ascii.eqb (align f) "<" then (0, 0, n_padding)
       else if Ascii.eqb (align f) "^" then
         (n_padding / 2, 0, n_padding - n_padding / 2)
       else if Ascii.eqb (align f) "=" then (0, n_padding, 0)
       else (n_padding, 0, 0))%N in
    let up (t : text) :=
      if Ascii.eqb (type f) "X" then map toupper t else t in
    Ok (padded (fill_char f) lpad rpad
          (sign_text ++ up prefix ++
           repeat (fill_char f) (N.to_nat spad) ++ up body ++ remainder)).

(** [format_long_internal]; the grouping of the presentation type [n]
    is that of the locale a process starts in, which has none. *)
Definition format_long_internal (z : Z) (f : InternalFormatSpec)
  : result text :=
  if bool_decide (is_Some (precision f)) then
    ValueError "Precision not allowed in integer format specifier"
  else if no_neg_0 f then
    ValueError "Negative zero coercion (z) not allowed in integer format specifier"
  else
    let* parts :=
      if Ascii.eqb (type f) "c" then
        if bool_decide (is_Some (sign f)) then
          ValueError "Sign not allowed with integer format specifier 'c'"
        else if alternate f then
          ValueError "Alternate form (#) not allowed with integer format specifier 'c'"
        else if ((0 <=? z) && (z <=? 255))%Z then
          Ok (false, [], [], [ascii_of_nat (Z.to_nat z)])
        else Outside "character beyond U+00FF, or OverflowError"
      else
        let '(base, pre) :=
          if Ascii.eqb (type f) "b" then (2%N, lit "0b")
          else if Ascii.eqb (type f) "o" then (8%N, lit "0o")
          else if Ascii.eqb (type f) "x" || Ascii.eqb (type f) "X"
          then (16%N, lit "0x")
          else (10%N, []) in
        Ok ((z <? 0)%Z, (if alternate f then pre else []),
            digits base (Z.abs_N z), []) in
    let '(negative, prefix, ds, remainder) := parts in
    fill_number f
      (if Ascii.eqb (type f) "n" then LT_NO_LOCALE else thousands_separators f)
      negative prefix ds remainder.

(** *** An integer in a presentation type of [float] *)

(** [n / d] rounded to the nearest integer, a tie to the even one. *)
Definition div_half_even (n d : N) : N :=
  let q := (n / d)%N in
  let r := (n mod d)%N in
  if (2 * r <? d)%N then q
  else if (2 * r =? d)%N then (if N.even q then q else q + 1)%N
  else (q + 1)%N.

(** [float(n)] for a natural number [n]: the double nearest to it,
    which is a natural number again. *)
Definition nearest_double (n : N) : N :=
  if (N.size n <=? 53)%N then n
  else
    let unit := (2 ^ (N.size n - 53))%N in
    (div_half_even n unit * unit)%N.

(** What a double cannot reach. *)
Definition DBL_OVERFLOW : N := 2 ^ 1024.

Fixpoint drop_zeros (l : text) : text :=
  match l with
  | c :: l' => if Ascii.eqb c "0" then drop_zeros l' else l
  | [] => []
  end.

Definition strip_trailing_zeros (l : text) : text :=
  rev (drop_zeros (rev l)).

(** [_Py_dg_dtoa] in mode 2 on the double [m]: [m] rounded to [ndigits]
    significant digits, a tie to the even digit; the digits without the
    zeros at their end, and the position of the decimal point. *)
Definition dtoa_significant (m ndigits : N) : text * Z :=
  if (m =? 0)%N then (["0"%char], 1%Z)
  else
    let ds := digits 10 m in
    let k := N.of_nat (length ds) in
    if (k <=? ndigits)%N then (strip_trailing_zeros ds, Z.of_N k)
    else
      let q := div_half_even m (10 ^ (k - ndigits)) in
      if (q =? 10 ^ ndigits)%N then (["1"%char], (Z.of_N k + 1)%Z)
      else (strip_trailing_zeros (digits 10 q), Z.of_N k).

(** [_Py_dg_dtoa] in mode 3 on the double [m], which has no digit
    after the decimal point. *)
Definition dtoa_fixed (m : N) : text * Z :=
  if (m =? 0)%N then (["0"%char], 1%Z)
  else
    let ds := digits 10 m in
    (strip_trailing_zeros ds, Z.of_nat (length ds)).

Definition zeros (n : Z) : text := repeat "0"%char (Z.to_nat n).

(** The [%+.02d] of the exponent. *)
Definition exponent_text (e : Z) : text :=
  (if (e <? 0)%Z then "-"%char else "+"%char) ::
  (if (Z.abs e <? 10)%Z then ["0"%char] else []) ++ Z_text (Z.abs e).

(** [format_float_short] on the double [m] for the format code [code]
    ([e], [f] or [g]) and the precision that [PyOS_double_to_string]
    hands over; [upper] asks for a capital [E]. *)
Definition format_float_short (m : N) (code : ascii) (prec : Z)
  (alt upper : bool) : text :=
  let '(ds, decpt) :=
    if Ascii.eqb code "f" then dtoa_fixed m
    else dtoa_significant m (Z.to_N prec) in
  let digits_len := Z.of_nat (length ds) in
  let use_exp :=
    Ascii.eqb code "e" ||
    (Ascii.eqb code "g" && ((decpt <=? -4) || (prec <? decpt))%Z) in
  let vdigits_end :=
    if Ascii.eqb code "e" then prec
    else if Ascii.eqb code "f" then (decpt + prec)%Z
    else if alt then prec else digits_len in
  let e := (decpt - 1)%Z in
  let decpt := if use_exp then 1%Z else decpt in
  let vdigits_end := Z.max vdigits_end decpt in
  let body :=
    (if (decpt <=? digits_len)%Z then
       take (Z.to_nat decpt) ds ++ ["."%char] ++ drop (Z.to_nat decpt) ds ++
       zeros (vdigits_end - digits_len)
     else
       ds ++ zeros (decpt - digits_len) ++ ["."%char] ++
       zeros (vdigits_end - decpt)) in
  let body :=
    match rev body with
    | c :: r => if Ascii.eqb c "." && negb alt then rev r else body
    | [] => body
    end in
  if use_exp then
    body ++ [if upper then "E"%char else "e"%char] ++ exponent_text e
  else body.

Definition INT_MAX : N := 2147483647.

(** [format_float_internal] on [float(z)]. *)
Definition format_float_internal (z : Z) (f : InternalFormatSpec)
  : result text :=
  let m := nearest_double (Z.abs_N z) in
  if (DBL_OVERFLOW <=? m)%N then
    Outside "OverflowError: int too large to convert to float"
  else
    let* prec :=
      match precision f with
      | Some p =>
          if (INT_MAX <? p)%N then ValueError "precision too big"
          else if (max_text <? p)%N then
            Outside "text beyond the memory of the process"
          else Ok (Z.of_N p)
      | None => Ok 6%Z
      end in
    let ty := type f in
    let upper := existsb (Ascii.eqb ty) ["E"; "F"; "G"]%char in
    let percent := Ascii.eqb ty "%" in
    let m := if percent then nearest_double (100 * m) else m in
    if (DBL_OVERFLOW <=? m)%N then Outside "infinity"
    else
      let s :=
        if Ascii.eqb ty "e" || Ascii.eqb ty "E" then
          format_float_short m "e" (prec + 1) (alternate f) upper
        else if Ascii.eqb ty "g" || Ascii.eqb ty "G" then
          format_float_short m "g" (Z.max prec 1) (alternate f) upper
        else format_float_short m "f" prec (alternate f) upper in
      let s := if percent then s ++ ["%"%char] else s in
      let (ds, rest) := textwrap.span is_digit s in
      fill_number f (thousands_separators f) (z <? 0)%Z [] ds rest.

(** [str.__format__] with a specifier that is not empty. *)
Definition format_str (s : text) (spec : text) : result text :=
  let* f := parse_internal_render_format_spec "str" spec "s" "<" in
  if Ascii.eqb (type f) "s" then format_string_internal s f
  else unknown_presentation_type (type f) "str".

(** [int.__format__] with a specifier that is not empty, for an object
    of the type named [tp_name] ([int] or [bool]). *)
Definition format_int (tp_name : string) (z : Z) (spec : text) : result text :=
  let* f := parse_internal_render_format_spec tp_name spec "d" ">" in
  if existsb (Ascii.eqb (type f)) ["b"; "c"; "d"; "o"; "x"; "X"; "n"]%char then
    format_long_internal z f
  else if existsb (Ascii.eqb (type f)) ["e"; "E"; "f"; "F"; "g"; "G"; "%"]%char
  then format_float_internal z f
  else unknown_presentation_type (type f) tp_name.

(** [render_field]: [format(o, spec)]. *)
Definition render_field (ct : class_table) (o : fobj) (spec : text)
  : result text :=
  match spec with
  | [] => str_obj ct o
  | _ =>
      match o with
      | FVal (VStr s) => format_str (lit s) spec
      | FVal (VInt z) => format_int "int" z spec
      | FVal (VBool b) => format_int "bool" (if b then 1 else 0) spec
      | _ =>
          let* n := type_name ct o in
          raise_text TypeError_id
            (lit "unsupported format string passed to " ++ lit n ++
             lit ".__format__")
      end
  end.

(** [MarkupIterator_next] and [output_markup], from left to right.
    [depth] is the [recursion_depth] of [build_string]: a specifier
    with a field of its own is built with one level less, and none is
    left below 1. *)
Fixpoint build_string (fuel depth : nat) (e : env) (an : autonumber) (l : text)
  : result (text * autonumber) :=
  match fuel, l with
  | _, [] => Ok ([], an)
  | 0, _ => Outside "fuel"
  | S fuel', c :: l' =>
      if Ascii.eqb c rbrace then
        match l' with
        | d :: l'' =>
            if Ascii.eqb d rbrace then
              let* r := build_string fuel' depth e an l'' in
              Ok (rbrace :: fst r, snd r)
            else ValueError "Single '}' encountered in format string"
        | [] => ValueError "Single '}' encountered in format string"
        end
      else if Ascii.eqb c lbrace then
        match l' with
        | [] => ValueError "Single '{' encountered in format string"
        | d :: l'' =>
            if Ascii.eqb d lbrace then
              let* r := build_string fuel' depth e an l'' in
              Ok (lbrace :: fst r, snd r)
            else
              let* p := parse_field l' in
              let '(f, rest) := p in
              let* r := get_field_object e an (f_name f) in
              let '(o, an1) := r in
              let* o' :=
                match f_conversion f with
                | Some c => do_conversion (env_classes e) o c
                | None => Ok o
                end in
              let* s :=
                if f_nested f then
                  match depth with
                  | S (S depth') => build_string fuel' (S depth') e an1 (f_spec f)
                  | _ => ValueError "Max string recursion exceeded"
                  end
                else Ok (f_spec f, an1) in
              let* out := render_field (env_classes e) o' (fst s) in
              let* r := build_string fuel' depth e (snd s) rest in
              Ok (out ++ fst r, snd r)
        end
      else
        let* r := build_string fuel' depth e an l' in
        Ok (c :: fst r, snd r)
  end.

(** [template.format( *args, **kwargs)]. *)
Definition format (ct : class_table) (template : text) (args : list pyval)
  (kwargs : list (string * fobj)) : result text :=
  let* r := build_string (length template) 2 (Env ct args kwargs) ANS_INIT
              template in
  Ok (fst r).

End fmt.

(** ** The process: classes, [sys.argv] and the two output streams *)

Record world := World {
  classes : class_table;
  argv : list string;
  stdout : text;
  stderr : text }.

(** Code that reads and writes the process state and may raise. *)
Definition M (A : Type) : Type := world -> result A * world.

Definition ret {A} (a : A) : M A := fun w => (Ok a, w).

Definition bind {A B} (m : M A) (k : A -> M B) : M B :=
  fun w =>
    match m w with
    | (Ok a, w') => k a w'
    | (Raise e, w') => (Raise e, w')
    | (Outside why, w') => (Outside why, w')
    end.

Definition raise {A} (e : instance) : M A := fun w => (Raise e, w).

Definition lift {A} (r : result A) : M A := fun w => (r, w).

Notation "x <- m ;; k" := (bind m (fun x => k))
  (at level 100, m at next level, right associativity, only parsing).

(** [try: body / except cls as ex: handler ex]. *)
Definition try_except {A} (body : M A) (cls : class_id)
  (handler : instance -> M A) : M A :=
  fun w =>
    match body w with
    | (Raise e, w') =>
        if isinstance (classes w') e cls then handler e w' else (Raise e, w')
    | r => r
    end.

(** [x.name] on an instance that has no attribute of its own: the
    attribute [f] of its class, or [AttributeError]. *)
Definition getattr {A} (name : string) (f : namespace -> option A)
  (x : instance) : M A :=
  fun w =>
    match class_attr (classes w) f (inst_class x) with
    | Some v => (Ok v, w)
    | None => (fmt.no_attribute (classes w) (fmt.FSelf x) (lit name), w)
    end.

Definition sys_argv : M (list string) := fun w => (Ok (argv w), w).

Definition get_classes : M class_table := fun w => (Ok (classes w), w).

(** [sys.stdout.write(t)]. *)
Definition write_stdout (t : text) : M unit :=
  fun w => (Ok tt, World (classes w) (argv w) (stdout w ++ t) (stderr w)).

(** ** [userexit.py] *)

(** [[
def format_script(s):
    return textwrap.dedent(s).strip() + '\n'
]] *)
Definition format_script (s : text) : text :=
  strip (textwrap.dedent s) ++ [nl].

(** [[
def format_msg(s):
    return '\n\n'.join(
            para if '>>>' in para else textwrap.fill(para)
            for para in s.split('\n\n'))
]] *)
Definition format_msg (s : text) : text :=
  join [nl; nl]
    (map (fun para => if contains (lit ">>>") para then para
                      else textwrap.fill para)
       (split_paras [] s)).

Module UserExit.

(** [[
    def __str__(self):
        message = ""
        if self.prefix_name:
            message += "{argv[0]}: "
        if self.prefix_error and self.exit_status != 0:
            message += "error: "
        message += format_script(self.message)
        return format_msg(
                message.format( *self.args, self=self, argv=sys.argv))
]] *)

(** The template [__str__] builds before it interpolates. *)
Definition template (self : instance) : M text :=
  let message := [] in
  prefix_name <- getattr "prefix_name" ns_prefix_name self ;;
  let message :=
    if prefix_name : bool then message ++ lit "{argv[0]}: " else message in
  prefix_error <- getattr "prefix_error" ns_prefix_error self ;;
  with_error <-
    (if prefix_error : bool then
       exit_status <- getattr "exit_status" ns_exit_status self ;;
       ret (negb (Z.eqb exit_status 0))
     else ret false) ;;
  let message :=
    if with_error : bool then message ++ lit "error: " else message in
  msg <- getattr "message" ns_message self ;;
  ret (message ++ format_script (lit msg)).

Definition __str__ (self : instance) : M text :=
  message <- template self ;;
  av <- sys_argv ;;
  ct <- get_classes ;;
  formatted <-
    lift (fmt.format ct message (inst_args self)
            [("self"%string, fmt.FSelf self);
             ("argv"%string, fmt.FVal (VList (map VStr av)))]) ;;
  ret (format_msg formatted).

(** [str(ex)]: the [__str__] of the first class of the resolution
    order of the class of [ex] that has one.  For a class that takes it
    from [UserExit] this is the method above; a class that lists
    [KeyError] or [AttributeError] before [UserExit] among its bases
    takes the one of that builtin class. *)
Definition str_of (ex : instance) : M text :=
  ct <- get_classes ;;
  match class_attr ct ns_str (inst_class ex) with
  | Some StrUserExit => __str__ ex
  | Some m => lift (fmt.slot_str ct ex m)
  | None => lift (Outside "no __str__")
  end.

(** [print(ex)]: the text of [str(ex)] and a line break, to
    [sys.stdout]. *)
Definition print (ex : instance) : M unit :=
  t <- str_of ex ;;
  write_stdout (t ++ [nl]).

(** A callable: positional and keyword arguments in, a value out. *)
Definition callable : Type :=
  list pyval -> list (string * pyval) -> M pyval.

(** [[
    @staticmethod
    def handle(fn):
        @functools.wraps(fn)
        def inner( *args, **kwargs):
            try:
                fn( *args, **kwargs)
            except UserExit as ex:
                print(ex)
                raise SystemExit(ex.exit_status)
        return inner
]] *)
Definition handle (fn : callable) : callable :=
  fun args kwargs =>
    try_except
      (_ <- fn args kwargs ;; ret VNone)
      UserExit_id
      (fun ex =>
         _ <- print ex ;;
         status <- getattr "exit_status" ns_exit_status ex ;;
         raise (Instance SystemExit_id [VInt status])).

End UserExit.

(** ** The classes of [test_userexit.py] *)

Definition body_msg (m : string) : namespace :=
  Namespace None (Some m) None None None.

Definition body_status_msg (s : Z) (m : string) : namespace :=
  Namespace (Some s) (Some m) None None None.

Definition FooExit_id : class_id := 12.
Definition FooAbort_id : class_id := 13.
Definition BarAbort_id : class_id := 14.
Definition BarAbortVariant_id : class_id := 15.
Definition BarAbortVariantB_id : class_id := 16.
Definition BarAbortVariantC_id : class_id := 17.
Definition BazAbort_id : class_id := 18.
Definition QuxAbort_id : class_id := 19.

Definition test_stmts : list class_stmt :=
  [ ClassStmt "FooExit" [UserExit_id] (body_msg "FooExit");
    ClassStmt "FooAbort" [UserAbort_id] (body_status_msg 80 "FooAbort");
    ClassStmt "BarAbort" [UserAbort_id] (body_msg "BarAbort");
    ClassStmt "BarAbortVariant" [BarAbort_id]
      (body_msg "A specific type of BarAbort");
    ClassStmt "BarAbortVariantB" [BarAbort_id]
      (body_status_msg 85 "A specific type of BarAbort B");
    ClassStmt "BarAbortVariantC" [BarAbort_id; UserAbort_id]
      (body_msg "A specific type of BarAbort C");
    ClassStmt "BazAbort" [UserAbort_id] (body_msg "BazAbort");
    ClassStmt "QuxAbort" [UserAbort_id] (body_status_msg 127 "QuxAbort") ].

(** The class table once [test_userexit.py] is imported. *)
Definition test_classes : class_table :=
  match declare_all userexit_classes test_stmts with
  | Ok ct => ct
  | _ => userexit_classes
  end.

(** ** The classes and the entry point of [demo.py] *)

Definition BadInputError_id : class_id := 12.

Definition demo_stmts : list class_stmt :=
  [ ClassStmt "BadInputError" [UserExit_id]
      (body_status_msg 3 "
        Input {!r} should be set to {!r}. Please adjust your settings
        and re-run {argv[0]!r}.
        ");
    ClassStmt "TargetFileMissingError" [UserExit_id]
      (body_status_msg 4 "Please ensure the target file {} exists.") ].

Definition demo_classes : class_table :=
  match declare_all userexit_classes demo_stmts with
  | Ok ct => ct
  | _ => userexit_classes
  end.

(** [MyClass.a_method(x)] up to its first [raise]: [y = False], and
    [x != y] raises [BadInputError(x, y)]; what follows reads a file and
    is outside the model. *)
Definition a_method (x : pyval) : M pyval :=
  let y := VBool false in
  match x with
  | VBool false | VInt 0%Z => lift (Outside "open")
  | _ => raise (Instance BadInputError_id [x; y])
  end.

(** The [TypeError] of a call of [main], which takes no parameter, with
    arguments: a keyword argument is reported first. *)
Definition main_arguments (args : list pyval) (kwargs : list (string * pyval))
  : instance :=
  match kwargs with
  | (k, _) :: _ =>
      exc TypeError_id
        (string_of_list_ascii
           (lit "main() got an unexpected keyword argument '" ++ lit k ++
            lit "'"))
  | [] =>
      exc TypeError_id
        (string_of_list_ascii
           (lit "main() takes 0 positional arguments but " ++
            N_text (N.of_nat (length args)) ++
            (match args with [_] => lit " was given" | _ => lit " were given" end)))
  end.

(** [main], before [UserExit.handle] decorates it:
[[
def main():
    c = MyClass()
    c.a_method(True)
]] *)
Definition demo_main : UserExit.callable :=
  fun args kwargs =>
    match args, kwargs with
    | [], [] => _ <- a_method (VBool true) ;; ret VNone
    | _, _ => raise (main_arguments args kwargs)
    end.

Definition main : UserExit.callable := UserExit.handle demo_main.

(** ** Notions used to state the properties *)

(** [m] leaves the process state as it found it. *)
Definition readonly {A} (m : M A) : Prop := forall w, snd (m w) = w.

(** Two states that a renderer cannot tell apart: the same classes and
    the same argument vector; the streams may differ. *)
Definition same_inputs (w1 w2 : world) : Prop :=
  classes w1 = classes w2 /\ argv w1 = argv w2.

(** The result of [m] depends on the classes and [sys.argv] only. *)
Definition stable {A} (m : M A) : Prop :=
  forall w1 w2, same_inputs w1 w2 -> fst (m w1) = fst (m w2).

Definition w_demo : world := World demo_classes ["demo.py"%string] [] [].

(** The keyword arguments that [__str__] passes to [str.format]. *)
Definition str_kwargs (self : instance) (av : list string)
  : list (string * fmt.fobj) :=
  [("self"%string, fmt.FSelf self);
   ("argv"%string, fmt.FVal (VList (map VStr av)))].

(** The state after [t] is written to [sys.stdout]. *)
Definition written (w : world) (t : text) : world :=
  World (classes w) (argv w) (stdout w ++ t) (stderr w).

(** The tables a program can reach: the builtin classes, extended by
    class statements that succeed. *)
Inductive loaded : class_table -> Prop :=
| loaded_builtins : loaded builtins
| loaded_declare ct s ct' c :
    loaded ct -> declare ct s = Ok (ct', c) -> loaded ct'.

(** What holds of every class of such a table: its linearization starts
    with the class, repeats no class and names classes of the table,
    and the linearization of a class with one base is the class followed
    by the linearization of the base. *)
Definition class_ok (ct : class_table) (i : class_id) (k : pyclass) : Prop :=
  hd_error (cls_mro k) = Some i /\
  NoDup (cls_mro k) /\
  Forall (fun j => j < length ct) (cls_mro k) /\
  (forall p, cls_bases k = [p] ->
     exists kp, ct !! p = Some kp /\ cls_mro k = i :: cls_mro kp).

Definition table_ok (ct : class_table) : Prop :=
  forall i k, ct !! i = Some k -> class_ok ct i k.

(** A class statement with another [exit_status] in its body. *)
Definition with_status (s : class_stmt) (v : option Z) : class_stmt :=
  ClassStmt (st_name s) (st_bases s)
    (Namespace v (ns_message (st_body s)) (ns_prefix_name (st_body s))
       (ns_prefix_error (st_body s)) (ns_str (st_body s))).

(** [c] reaches [a] through classes that each have one base, other than
    [UserAbort], and no [exit_status] in their body. *)
Inductive inherits (ct : class_table) : class_id -> class_id -> Prop :=
| inherits_refl c : inherits ct c c
| inherits_step c k p a :
    ct !! c = Some k ->
    cls_bases k = [p] ->
    p <> UserAbort_id ->
    ns_exit_status (cls_dict k) = None ->
    inherits ct p a ->
    inherits ct c a.

(** Two classes under [UserExit], one with a status of its own, and a
    class that lists both as its bases, the one without a status
    first. *)
Definition diamond_stmts : list class_stmt :=
  [ ClassStmt "Plain" [UserExit_id] (body_msg "Plain");
    ClassStmt "Coded" [UserExit_id] (body_status_msg 5 "Coded");
    ClassStmt "Both" [12; 13] (body_msg "Both") ].

Definition diamond_classes : class_table :=
  match declare_all userexit_classes diamond_stmts with
  | Ok ct => ct
  | _ => userexit_classes
  end.

Definition QuxAbort_stmt : class_stmt :=
  ClassStmt "QuxAbort" [UserAbort_id] (body_status_msg 127 "QuxAbort").

(** [FooAbort] of [test_userexit.py], and after it a class that names
    [FooAbort] and [UserAbort] as its bases and has no status of its
    own. *)
Definition reuse_stmts : list class_stmt :=
  [ ClassStmt "FooAbort" [UserAbort_id] (body_status_msg 80 "FooAbort");
    ClassStmt "Later" [12; UserAbort_id] (body_msg "Later") ].

Definition reuse_classes : class_table :=
  match declare_all userexit_classes reuse_stmts with
  | Ok ct => ct
  | _ => userexit_classes
  end.

(** The characters of a text that are not white space, in order. *)
Definition visible (l : text) : text :=
  List.filter (fun c => negb (isspace c)) l.

Definition blank_margin (m : option text) : Prop :=
  match m with
  | Some t => forallb textwrap.is_blank t = true
  | None => True
  end.

(** One round of the loop of [_wrap_chunks]: the chunks of the next
    line and the chunks left; [first] says that no line was produced
    yet. *)
Definition wrap_round (first : bool) (chunks : list text)
  : list text * list text :=
  match chunks with
  | [] => ([], [])
  | c0 :: rest0 =>
      let chunks1 :=
        if textwrap.blank_chunk c0 && negb first then rest0 else chunks in
      let '(line, cur_len, rest) := textwrap.take_fitting 0 chunks1 in
      let '(line2, rest2) :=
        match rest with
        | c :: rest' =>
            if textwrap.width <? length c then
              let e := textwrap.long_word_cut c (textwrap.width - cur_len) in
              (line ++ [take e c], drop e c :: rest')
            else (line, rest)
        | [] => (line, rest)
        end in
      (textwrap.drop_last_blank line2, rest2)
  end.

(** No brace in the text. *)
Definition brace_free (l : text) : bool :=
  forallb (fun c => negb (Ascii.eqb c fmt.lbrace || Ascii.eqb c fmt.rbrace)) l.

(** A result that, when it is an exception, is one of a builtin
    class. *)
Definition builtin_raise {A} (r : result A) : Prop :=
  match r with
  | Raise x => inst_class x < length builtins
  | _ => True
  end.

(** A line [dedent] leaves as it is: an empty one, or one with a
    character other than a space or a tab. *)
Definition settled_line (l : text) : Prop :=
  l = [] \/ forallb textwrap.is_blank l = false.

Definition settled (t : text) : Prop :=
  Forall settled_line (split_lines [] t).

(** No line break in the text. *)
Definition one_line (l : text) : bool :=
  forallb (fun c => negb (Ascii.eqb c nl)) l.

(** * Properties *)

Lemma userexit_module_loads :
  declare_all builtins userexit_stmts = Ok userexit_classes.
Proof. vm_compute. reflexivity. Qed.

(** ** Class statements extend the table and change no class *)

Lemma declare_appends ct s ct' c :
  declare ct s = Ok (ct', c) ->
  c = length ct /\
  exists tl,
    ct' = ct ++ [PyClass (st_name s)
                   (match st_bases s with [] => [object_id] | bs => bs end)
                   (c :: tl) (st_body s)].
Proof.
  unfold declare. intros H.
  destruct (all_some _) as [mros|]; [|discriminate].
  destruct (has_dup _); [discriminate|].
  destruct (merge _) as [tl|]; [|discriminate].
  injection H as <- <-. split; [reflexivity|]. exists tl. reflexivity.
Qed.

Lemma declare_all_extends ss : forall ct ct',
  declare_all ct ss = Ok ct' -> exists ext, ct' = ct ++ ext.
Proof.
  induction ss as [|s ss IH]; intros ct ct' H; simpl in H.
  - injection H as <-. exists []. by rewrite app_nil_r.
  - destruct (declare ct s) as [[ct1 c]| |] eqn:E; simpl in H; try discriminate.
    apply declare_appends in E as [_ [tl ->]].
    apply IH in H as [ext ->]. eexists. by rewrite <- app_assoc.
Qed.

Lemma lookup_mro_app {A} (ct ext : class_table) (f : namespace -> option A) mro :
  Forall (fun i => i < length ct) mro ->
  lookup_mro (ct ++ ext) f mro = lookup_mro ct f mro.
Proof.
  induction 1 as [|i mro Hi _ IH]; [reflexivity|].
  cbn [lookup_mro]. rewrite lookup_app_l by exact Hi. rewrite IH. reflexivity.
Qed.

(** The classes of [userexit] keep their attributes whatever is declared
    after them. *)
Lemma builtin_roots_fixed ext :
  exit_status_of (userexit_classes ++ ext) UserExit_id = Some 0%Z /\
  exit_status_of (userexit_classes ++ ext) UserAbort_id = Some 1%Z.
Proof. split; reflexivity. Qed.

(** C6: whatever class statements run after [userexit] is imported, in
    any number and any order, with or without an [exit_status] of their
    own, [UserExit.exit_status] is 0 and [UserAbort.exit_status] is 1. *)
Theorem C6_roots_keep_their_status (ss : list class_stmt) (ct : class_table) :
  declare_all userexit_classes ss = Ok ct ->
  exit_status_of ct UserExit_id = Some 0%Z /\
  exit_status_of ct UserAbort_id = Some 1%Z.
Proof.
  intros H. apply declare_all_extends in H as [ext ->].
  apply builtin_roots_fixed.
Qed.

Lemma test_module_loads :
  declare_all userexit_classes test_stmts = Ok test_classes.
Proof. vm_compute. reflexivity. Qed.

Lemma C6_roots_keep_their_status_witness :
  declare_all userexit_classes test_stmts = Ok test_classes /\
  exit_status_of test_classes UserExit_id = Some 0%Z /\
  exit_status_of test_classes UserAbort_id = Some 1%Z.
Proof.
  split; [exact test_module_loads|].
  exact (C6_roots_keep_their_status test_stmts test_classes test_module_loads).
Defined.

(** ** Code that only reads the process state *)

Create HintDb pure_db.

Lemma readonly_ret {A} (a : A) : readonly (ret a).
Proof. intros w. reflexivity. Qed.

Lemma readonly_lift {A} (r : result A) : readonly (lift r).
Proof. intros w. reflexivity. Qed.

Lemma readonly_raise {A} e : readonly (@raise A e).
Proof. intros w. reflexivity. Qed.

Lemma readonly_getattr {A} name (f : namespace -> option A) x :
  readonly (getattr name f x).
Proof. intros w. unfold getattr. destruct (class_attr _ _ _); reflexivity. Qed.

Lemma readonly_sys_argv : readonly sys_argv.
Proof. intros w. reflexivity. Qed.

Lemma readonly_get_classes : readonly get_classes.
Proof. intros w. reflexivity. Qed.

Lemma readonly_bind {A B} (m : M A) (k : A -> M B) :
  readonly m -> (forall a, readonly (k a)) -> readonly (bind m k).
Proof.
  intros Hm Hk w. unfold bind. specialize (Hm w).
  destruct (m w) as [[a|e|why] w1]; simpl in Hm; subst w1; simpl; auto.
  apply Hk.
Qed.

Lemma stable_ret {A} (a : A) : stable (ret a).
Proof. intros w1 w2 _. reflexivity. Qed.

Lemma stable_lift {A} (r : result A) : stable (lift r).
Proof. intros w1 w2 _. reflexivity. Qed.

Lemma stable_getattr {A} name (f : namespace -> option A) x :
  stable (getattr name f x).
Proof.
  intros w1 w2 [Hc _]. unfold getattr. rewrite Hc.
  destruct (class_attr _ _ _); reflexivity.
Qed.

Lemma stable_sys_argv : stable sys_argv.
Proof. intros w1 w2 [_ Ha]. unfold sys_argv. simpl. by rewrite Ha. Qed.

Lemma stable_get_classes : stable get_classes.
Proof. intros w1 w2 [Hc _]. unfold get_classes. simpl. by rewrite Hc. Qed.

Lemma stable_bind {A B} (m : M A) (k : A -> M B) :
  readonly m -> stable m -> (forall a, stable (k a)) -> stable (bind m k).
Proof.
  intros Hr Hm Hk w1 w2 Hw. unfold bind.
  pose proof (Hr w1) as R1. pose proof (Hr w2) as R2.
  specialize (Hm w1 w2 Hw).
  destruct (m w1) as [r1 v1], (m w2) as [r2 v2]. simpl in *. subst.
  destruct r2; simpl; auto. by apply Hk.
Qed.

#[export] Hint Resolve readonly_ret readonly_lift readonly_raise
  readonly_getattr readonly_sys_argv readonly_get_classes readonly_bind
  stable_ret stable_lift stable_getattr stable_sys_argv stable_get_classes
  stable_bind : pure_db.

Ltac pure_step :=
  repeat first
    [ progress intros
    | match goal with
      | |- readonly (if ?b then _ else _) => destruct b
      | |- stable (if ?b then _ else _) => destruct b
      end
    | apply readonly_bind
    | apply stable_bind
    | solve [auto with pure_db] ].

Lemma template_readonly self : readonly (UserExit.template self).
Proof. unfold UserExit.template. pure_step. Qed.

Lemma template_stable self : stable (UserExit.template self).
Proof. unfold UserExit.template. pure_step. Qed.

Lemma str_readonly self : readonly (UserExit.__str__ self).
Proof.
  unfold UserExit.__str__. pure_step.
Qed.

Lemma str_stable self : stable (UserExit.__str__ self).
Proof.
  unfold UserExit.__str__. pure_step.
Qed.



(** ** What the decorated entry point does *)

Lemma handle_returns fn args kwargs w v w' :
  fn args kwargs w = (Ok v, w') ->
  UserExit.handle fn args kwargs w = (Ok VNone, w').
Proof.
  intros H. unfold UserExit.handle, try_except, bind. rewrite H. reflexivity.
Qed.

Lemma handle_passes fn args kwargs w e w' :
  fn args kwargs w = (Raise e, w') ->
  isinstance (classes w') e UserExit_id = false ->
  UserExit.handle fn args kwargs w = (Raise e, w').
Proof.
  intros H Hi. unfold UserExit.handle, try_except, bind. rewrite H.
  cbn beta iota. rewrite Hi. reflexivity.
Qed.

(** [str(ex)] reads the process state and leaves it as it was. *)
Lemma str_of_readonly ex : readonly (UserExit.str_of ex).
Proof.
  unfold UserExit.str_of. apply readonly_bind; [apply readonly_get_classes|].
  intros ct. destruct (class_attr ct ns_str (inst_class ex)) as [[| | | |]|];
    auto using str_readonly with pure_db.
Qed.

Lemma str_of_stable ex : stable (UserExit.str_of ex).
Proof.
  unfold UserExit.str_of.
  apply stable_bind; [apply readonly_get_classes|apply stable_get_classes|].
  intros ct. destruct (class_attr ct ns_str (inst_class ex)) as [[| | | |]|];
    auto using str_stable with pure_db.
Qed.


(** A missing attribute is an [AttributeError], never a value. *)
Lemma no_attribute_cases {A} ct o name :
  (exists x, @fmt.no_attribute ct o name A = Raise x /\
             inst_class x = AttributeError_id) \/
  (exists y, @fmt.no_attribute ct o name A = Outside y).
Proof.
  unfold fmt.no_attribute. destruct (fmt.type_name ct o) as [n|x|y] eqn:E.
  - left. eexists. split; reflexivity.
  - destruct o as [v|x']; [discriminate E|]. simpl in E.
    destruct (ct !! inst_class x'); discriminate E.
  - right. eexists. reflexivity.
Qed.

Lemma handle_intercepts fn args kwargs w e w' :
  fn args kwargs w = (Raise e, w') ->
  isinstance (classes w') e UserExit_id = true ->
  UserExit.handle fn args kwargs w =
  match fst (UserExit.str_of e w') with
  | Ok t =>
      match exit_status_of (classes w') (inst_class e) with
      | Some s =>
          (Raise (Instance SystemExit_id [VInt s]), written w' (t ++ [nl]))
      | None =>
          (fmt.no_attribute (classes w') (fmt.FSelf e) (lit "exit_status"),
           written w' (t ++ [nl]))
      end
  | Raise x => (Raise x, w')
  | Outside why => (Outside why, w')
  end.
Proof.
  intros H Hi. unfold UserExit.handle, try_except.
  unfold bind at 1. rewrite H. cbn beta iota. rewrite Hi.
  unfold UserExit.print, bind.
  pose proof (str_of_readonly e w') as R.
  destruct (UserExit.str_of e w') as [[t|x|why] w1]; simpl in R; subst w1;
    simpl; try reflexivity.
  unfold getattr, exit_status_of. simpl.
  destruct (class_attr _ _ _); [reflexivity|].
  unfold fmt.no_attribute, fmt.type_name.
  destruct (classes w' !! inst_class e); reflexivity.
Qed.

(** An instance of a subclass of [UserExit] finds an [exit_status] once
    [userexit] is imported. *)
Lemma lookup_mro_found {A} (ct : class_table) (f : namespace -> option A)
  mro c k v :
  In c mro -> ct !! c = Some k -> f (cls_dict k) = Some v ->
  is_Some (lookup_mro ct f mro).
Proof.
  intros Hin Hk Hv. induction mro as [|d mro IH]; [destruct Hin|].
  cbn [lookup_mro]. destruct Hin as [->|Hin].
  - rewrite Hk, Hv. eauto.
  - destruct (ct !! d) as [kd|]; [|auto].
    destruct (f (cls_dict kd)); eauto.
Qed.



Lemma demo_module_loads :
  declare_all userexit_classes demo_stmts = Ok demo_classes.
Proof. vm_compute. reflexivity. Qed.

Lemma demo_has_userexit : userexit_classes `prefix_of` demo_classes.
Proof. eexists. vm_compute. reflexivity. Qed.


(** [demo.py] as it is: [main()] prints the message of
    [BadInputError(True, False)] and exits with status 3. *)
Example demo_run :
  main [] [] w_demo =
  (Raise (Instance SystemExit_id [VInt 3]),
   written w_demo (lit "demo.py: error: Input True should be set to False. Please adjust your
settings and re-run 'demo.py'.
")).
Proof. vm_compute. reflexivity. Qed.






(** C7, where the code departs from the claim: [inner] calls [fn] and
    drops what it returns, so the decorated callable returns [None]
    whatever [fn] returns. *)
Theorem C7_return_value_dropped (v : pyval) (w : world) :
  UserExit.handle (fun _ _ => ret v) [] [] w = (Ok VNone, w) /\
  UserExit.handle (fun _ _ => ret (VInt 42)) [] [] w <> (Ok (VInt 42), w).
Proof. split; [reflexivity|]. discriminate. Qed.

(** C1, where the code departs from the claim: a class declared with
    [UserAbort] among its bases and no [exit_status] of its own gets no
    status of its own; it reads 1, the status of [UserAbort], and so do
    all its siblings.  [test_userexit.py] expects 79, 81 and 82. *)
Theorem C1_abort_children_share_status :
  exit_status_of test_classes BarAbort_id = Some 1%Z /\
  exit_status_of test_classes BarAbortVariantC_id = Some 1%Z /\
  exit_status_of test_classes BazAbort_id = Some 1%Z /\
  exit_status_of test_classes UserAbort_id = Some 1%Z.
Proof. vm_compute. repeat split. Qed.

(** ** [str.format], step by step *)

Lemma build_string_step fuel depth e an c l :
  fmt.build_string (S fuel) depth e an (c :: l) =
  if Ascii.eqb c fmt.rbrace then
    match l with
    | d :: l'' =>
        if Ascii.eqb d fmt.rbrace then
          let* r := fmt.build_string fuel depth e an l'' in
          Ok (fmt.rbrace :: fst r, snd r)
        else fmt.ValueError "Single '}' encountered in format string"
    | [] => fmt.ValueError "Single '}' encountered in format string"
    end
  else if Ascii.eqb c fmt.lbrace then
    match l with
    | [] => fmt.ValueError "Single '{' encountered in format string"
    | d :: l'' =>
        if Ascii.eqb d fmt.lbrace then
          let* r := fmt.build_string fuel depth e an l'' in
          Ok (fmt.lbrace :: fst r, snd r)
        else
          let* p := fmt.parse_field l in
          let '(f, rest) := p in
          let* r := fmt.get_field_object e an (fmt.f_name f) in
          let '(o, an1) := r in
          let* o' :=
            match fmt.f_conversion f with
            | Some c => fmt.do_conversion (fmt.env_classes e) o c
            | None => Ok o
            end in
          let* s :=
            if fmt.f_nested f then
              match depth with
              | S (S depth') =>
                  fmt.build_string fuel (S depth') e an1 (fmt.f_spec f)
              | _ => fmt.ValueError "Max string recursion exceeded"
              end
            else Ok (fmt.f_spec f, an1) in
          let* out := fmt.render_field (fmt.env_classes e) o' (fst s) in
          let* r := fmt.build_string fuel depth e (snd s) rest in
          Ok (out ++ fst r, snd r)
    end
  else
    let* r := fmt.build_string fuel depth e an l in
    Ok (c :: fst r, snd r).
Proof. reflexivity. Qed.

(** A text without braces is copied, and the numbering of the fields
    stays where it was. *)
Lemma build_string_plain l : forall fuel depth e an,
  brace_free l = true -> length l <= fuel ->
  fmt.build_string fuel depth e an l = Ok (l, an).
Proof.
  induction l as [|c l IH]; intros fuel depth e an Hb Hf.
  { destruct fuel; reflexivity. }
  destruct fuel as [|fuel]; [simpl in Hf; lia|].
  cbn [brace_free forallb] in Hb. apply andb_true_iff in Hb as [Hc Hl].
  apply negb_true_iff, orb_false_iff in Hc as [Hl1 Hr1].
  rewrite build_string_step, Hr1, Hl1.
  rewrite (IH fuel depth e an Hl); [reflexivity|simpl in Hf; lia].
Qed.

Lemma brace_free_app l1 l2 :
  brace_free (l1 ++ l2) = brace_free l1 && brace_free l2.
Proof. unfold brace_free. apply forallb_app. Qed.

Lemma build_string_plain_prefix p : forall fuel depth e an X,
  brace_free p = true ->
  fmt.build_string (length p + fuel) depth e an (p ++ X) =
  let* r := fmt.build_string fuel depth e an X in Ok (p ++ fst r, snd r).
Proof.
  induction p as [|c p IH]; intros fuel depth e an X Hb.
  { simpl. by destruct (fmt.build_string fuel depth e an X) as [[t a]| |]. }
  cbn [brace_free forallb] in Hb. apply andb_true_iff in Hb as [Hc Hp].
  apply negb_true_iff, orb_false_iff in Hc as [Hl1 Hr1].
  cbn [length Nat.add app]. rewrite build_string_step, Hr1, Hl1.
  rewrite (IH fuel depth e an X Hp).
  by destruct (fmt.build_string fuel depth e an X) as [[t a]| |].
Qed.

Lemma scan_field_name_shorter l : forall b acc name c rest,
  fmt.scan_field_name b acc l = Ok (name, c, rest) ->
  length rest < length l.
Proof.
  induction l as [|x l IH]; intros b acc name c rest H; [discriminate|].
  cbn [fmt.scan_field_name] in H. simpl.
  destruct b; [apply IH in H; lia|].
  destruct (Ascii.eqb x fmt.lbrace); [discriminate|].
  destruct (Ascii.eqb x fmt.lbracket); [apply IH in H; lia|].
  destruct (_ || _); [injection H as _ _ <-; lia|apply IH in H; lia].
Qed.

(** The specifier and the text after the field are parts of the text
    that was scanned. *)
Lemma scan_spec_parts l : forall n b acc sp nested rest,
  fmt.scan_spec n b acc l = Ok (sp, nested, rest) ->
  length sp + length rest < length acc + length l.
Proof.
  induction l as [|x l IH]; intros n b acc sp nested rest H; [discriminate|].
  cbn [fmt.scan_spec] in H. simpl.
  destruct (Ascii.eqb x fmt.lbrace); [apply IH in H; simpl in H; lia|].
  destruct (Ascii.eqb x fmt.rbrace); [|apply IH in H; simpl in H; lia].
  destruct n; [|apply IH in H; simpl in H; lia].
  injection H as <- _ <-. rewrite length_rev. lia.
Qed.

Lemma parse_field_parts l f rest :
  fmt.parse_field l = Ok (f, rest) ->
  length (fmt.f_spec f) + length rest < length l.
Proof.
  unfold fmt.parse_field.
  destruct (fmt.scan_field_name false [] l) as [[[name c] r]| |] eqn:S;
    [|discriminate..].
  apply scan_field_name_shorter in S. cbn [rbind].
  assert (forall conv l',
            (let* s := fmt.scan_spec 0 false [] l' in
             let '(sp, nested, rest') := s in
             Ok (fmt.Field name conv sp nested, rest')) = Ok (f, rest) ->
            length (fmt.f_spec f) + length rest < length l') as Hspec.
  { intros conv l' H.
    destruct (fmt.scan_spec 0 false [] l') as [[[sp nested] r']| |] eqn:P;
      [|discriminate..].
    apply scan_spec_parts in P. cbn in H. injection H as <- <-. exact P. }
  destruct (Ascii.eqb c fmt.bang).
  - destruct r as [|conv [|d r2]]; [discriminate| |].
    + intros H. apply Hspec in H. simpl in H. lia.
    + destruct (Ascii.eqb d fmt.rbrace).
      { intros H. injection H as <- <-. simpl in *. lia. }
      destruct (Ascii.eqb d fmt.colon); [|discriminate].
      intros H. apply Hspec in H. simpl in S. lia.
  - destruct (Ascii.eqb c fmt.colon).
    + intros H. apply Hspec in H. lia.
    + intros H. injection H as <- <-. simpl. exact S.
Qed.

(** [str.format] needs at most one step for each character of the
    template: with that much fuel or more the result is the same. *)
Lemma build_string_enough f1 : forall f2 depth e an l,
  length l <= f1 -> length l <= f2 ->
  fmt.build_string f1 depth e an l = fmt.build_string f2 depth e an l.
Proof.
  induction f1 as [|f1 IH]; intros f2 depth e an l H1 H2.
  { destruct l; [|simpl in H1; lia]. by destruct f2. }
  destruct l as [|c l]; [by destruct f2|].
  destruct f2 as [|f2]; [simpl in H2; lia|].
  simpl in H1, H2. rewrite !build_string_step.
  destruct (Ascii.eqb c fmt.rbrace).
  { destruct l as [|d l'']; [reflexivity|].
    destruct (Ascii.eqb d fmt.rbrace); [|reflexivity].
    rewrite (IH f2); [reflexivity|simpl in *; lia..]. }
  destruct (Ascii.eqb c fmt.lbrace).
  { destruct l as [|d l'']; [reflexivity|].
    destruct (Ascii.eqb d fmt.lbrace).
    { rewrite (IH f2); [reflexivity|simpl in *; lia..]. }
    destruct (fmt.parse_field (d :: l'')) as [[f rest]| |] eqn:P;
      [|reflexivity..].
    apply parse_field_parts in P. cbn [rbind].
    destruct (fmt.get_field_object e an (fmt.f_name f)) as [[o an1]| |];
      [|reflexivity..].
    cbn [rbind].
    destruct (match fmt.f_conversion f with
              | Some c0 => fmt.do_conversion (fmt.env_classes e) o c0
              | None => Ok o
              end) as [o'| |]; [|reflexivity..].
    cbn [rbind].
    assert ((if fmt.f_nested f then
               match depth with
               | S (S depth') =>
                   fmt.build_string f1 (S depth') e an1 (fmt.f_spec f)
               | _ => fmt.ValueError "Max string recursion exceeded"
               end
             else Ok (fmt.f_spec f, an1)) =
            (if fmt.f_nested f then
               match depth with
               | S (S depth') =>
                   fmt.build_string f2 (S depth') e an1 (fmt.f_spec f)
               | _ => fmt.ValueError "Max string recursion exceeded"
               end
             else Ok (fmt.f_spec f, an1))) as ->.
    { destruct (fmt.f_nested f); [|reflexivity].
      destruct depth as [|[|depth']]; try reflexivity.
      apply IH; lia. }
    destruct (if fmt.f_nested f then _ else _) as [s| |]; [|reflexivity..].
    cbn [rbind]. destruct (fmt.render_field _ o' (fst s)); [|reflexivity..].
    cbn [rbind]. rewrite (IH f2); [reflexivity|lia..]. }
  rewrite (IH f2); [reflexivity|lia..].
Qed.

(** One replacement field without a field in its specifier, once its
    parts are known. *)
Lemma field_renders fuel depth e an d l f rest o an' out :
  Ascii.eqb d fmt.lbrace = false ->
  fmt.parse_field (d :: l) = Ok (f, rest) ->
  fmt.f_nested f = false ->
  fmt.get_field_object e an (fmt.f_name f) = Ok (o, an') ->
  (let* o' :=
     match fmt.f_conversion f with
     | Some c => fmt.do_conversion (fmt.env_classes e) o c
     | None => Ok o
     end in
   fmt.render_field (fmt.env_classes e) o' (fmt.f_spec f)) = Ok out ->
  fmt.build_string (S fuel) depth e an ("{"%char :: d :: l) =
  let* r := fmt.build_string fuel depth e an' rest in Ok (out ++ fst r, snd r).
Proof.
  intros Hd Hp Hn Hg Hr. rewrite build_string_step.
  change (Ascii.eqb "{" fmt.rbrace) with false.
  change (Ascii.eqb "{" fmt.lbrace) with true.
  cbn beta iota. rewrite Hd, Hp. cbn [rbind]. rewrite Hg. cbn [rbind].
  rewrite Hn.
  destruct (match fmt.f_conversion f with
            | Some c => fmt.do_conversion (fmt.env_classes e) o c
            | None => Ok o
            end) as [o'| |]; [|discriminate Hr..].
  cbn [rbind fst snd] in *. rewrite Hr. reflexivity.
Qed.

(** The field [{argv[0]}] and the colon and space after it. *)
Lemma name_prefix_renders ct args self a0 rest an fuel depth X :
  fmt.build_string (S (S (S fuel))) depth
    (fmt.Env ct args (str_kwargs self (a0 :: rest)))
    an (lit "{argv[0]}: " ++ X) =
  let* r :=
    fmt.build_string fuel depth
      (fmt.Env ct args (str_kwargs self (a0 :: rest))) an X in
  Ok (lit a0 ++ lit ": " ++ fst r, snd r).
Proof.
  rewrite (field_renders (S (S fuel)) depth _ an "a" (lit "rgv[0]}: " ++ X)
             (fmt.Field (lit "argv[0]") None [] false) (lit ": " ++ X)
             (fmt.FVal (VStr a0)) an (lit a0)); try reflexivity.
  rewrite (build_string_plain_prefix (lit ": ") fuel) by reflexivity.
  destruct (fmt.build_string fuel depth _ an X) as [[t a]| |]; reflexivity.
Qed.

(** The field [{argv[0]}] when [sys.argv] is empty. *)
Lemma name_prefix_fails ct args self an fuel depth X :
  fmt.build_string (S fuel) depth (fmt.Env ct args (str_kwargs self []))
    an (lit "{argv[0]}: " ++ X) =
  Raise (exc IndexError_id "list index out of range").
Proof. reflexivity. Qed.

(** The name prefix and a prefix without braces are rendered apart from
    the rest of the template. *)
Lemma format_prefixed ct (pn : bool) (E B : text) args self a0 rest :
  brace_free E = true ->
  fmt.format ct ((if pn then lit "{argv[0]}: " else []) ++ E ++ B) args
    (str_kwargs self (a0 :: rest)) =
  let* body := fmt.format ct B args (str_kwargs self (a0 :: rest)) in
  Ok ((if pn then lit a0 ++ lit ": " else []) ++ E ++ body).
Proof.
  intros HE. unfold fmt.format.
  set (e := fmt.Env ct args (str_kwargs self (a0 :: rest))).
  assert (forall fuel, length (E ++ B) <= fuel ->
            fmt.build_string fuel 2 e fmt.ANS_INIT (E ++ B) =
            let* r := fmt.build_string (length B) 2 e fmt.ANS_INIT B in
            Ok (E ++ fst r, snd r)) as Hpre.
  { intros fuel Hf. rewrite length_app in Hf.
    rewrite (build_string_enough fuel (length E + length B));
      [|rewrite length_app; lia..].
    by apply build_string_plain_prefix. }
  destruct pn.
  - change (length (lit "{argv[0]}: " ++ E ++ B))
      with (S (S (S (8 + length (E ++ B))))).
    unfold e at 1. rewrite name_prefix_renders. fold e.
    rewrite Hpre by lia.
    destruct (fmt.build_string (length B) 2 e fmt.ANS_INIT B) as [[t a]| |];
      cbn [rbind fst snd]; [|reflexivity..].
    by rewrite <- ?app_assoc.
  - cbn [app]. rewrite Hpre by lia.
    by destruct (fmt.build_string (length B) 2 e fmt.ANS_INIT B) as [[t a]| |].
Qed.

Lemma format_plain ct (B : text) args kw :
  brace_free B = true -> fmt.format ct B args kw = Ok B.
Proof.
  intros HB. unfold fmt.format.
  by rewrite build_string_plain.
Qed.

(** ** The prefixes of the message *)

Lemma template_value (w : world) (self : instance) pn pe s m :
  class_attr (classes w) ns_prefix_name (inst_class self) = Some pn ->
  class_attr (classes w) ns_prefix_error (inst_class self) = Some pe ->
  class_attr (classes w) ns_exit_status (inst_class self) = Some s ->
  class_attr (classes w) ns_message (inst_class self) = Some m ->
  UserExit.template self w =
  (Ok ((if pn then lit "{argv[0]}: " else []) ++
       (if pe && negb (Z.eqb s 0) then lit "error: " else []) ++
       format_script (lit m)), w).
Proof.
  intros Hn He Hs Hm.
  unfold UserExit.template, bind, getattr, ret.
  rewrite Hn, He. destruct pn, pe; cbn beta iota; rewrite ?Hs, Hm;
    cbn beta iota; destruct (Z.eqb s 0); reflexivity.
Qed.

Lemma str_of_template (w : world) (self : instance) (t : text) :
  UserExit.template self w = (Ok t, w) ->
  UserExit.__str__ self w =
  (let* formatted :=
     fmt.format (classes w) t (inst_args self) (str_kwargs self (argv w)) in
   Ok (format_msg formatted), w).
Proof.
  intros H. unfold UserExit.__str__, bind. rewrite H.
  unfold sys_argv, get_classes, lift, ret. cbn beta iota.
  change [("self"%string, fmt.FSelf self);
          ("argv"%string, fmt.FVal (VList (map VStr (argv w))))]
    with (str_kwargs self (argv w)).
  destruct (fmt.format _ _ _ _); reflexivity.
Qed.

(** What [__str__] returns: the prefixes, then the message with its
    fields replaced, reflowed as a whole. *)
Lemma str_prefixes (w : world) (self : instance) (pn pe : bool) (s : Z)
  (m a0 : string) (rest : list string) :
  class_attr (classes w) ns_prefix_name (inst_class self) = Some pn ->
  class_attr (classes w) ns_prefix_error (inst_class self) = Some pe ->
  class_attr (classes w) ns_exit_status (inst_class self) = Some s ->
  class_attr (classes w) ns_message (inst_class self) = Some m ->
  argv w = a0 :: rest ->
  UserExit.__str__ self w =
  (let* body :=
     fmt.format (classes w) (format_script (lit m)) (inst_args self)
       (str_kwargs self (argv w)) in
   Ok (format_msg
         ((if pn then lit a0 ++ lit ": " else []) ++
          (if pe && negb (Z.eqb s 0) then lit "error: " else []) ++
          body)), w).
Proof.
  intros Hn He Hs Hm Ha.
  rewrite (str_of_template _ _ _ (template_value _ _ _ _ _ _ Hn He Hs Hm)).
  rewrite Ha, format_prefixed by (by destruct (pe && _)).
  by destruct (fmt.format _ _ _ _).
Qed.

(** A message without braces. *)
Lemma str_brace_free (w : world) (self : instance) (pn pe : bool) (s : Z)
  (m a0 : string) (rest : list string) :
  class_attr (classes w) ns_prefix_name (inst_class self) = Some pn ->
  class_attr (classes w) ns_prefix_error (inst_class self) = Some pe ->
  class_attr (classes w) ns_exit_status (inst_class self) = Some s ->
  class_attr (classes w) ns_message (inst_class self) = Some m ->
  argv w = a0 :: rest ->
  brace_free (format_script (lit m)) = true ->
  UserExit.__str__ self w =
  (Ok (format_msg
         ((if pn then lit a0 ++ lit ": " else []) ++
          (if pe && negb (Z.eqb s 0) then lit "error: " else []) ++
          format_script (lit m))), w).
Proof.
  intros Hn He Hs Hm Ha Hb.
  rewrite (str_prefixes _ _ _ _ _ _ _ _ Hn He Hs Hm Ha).
  by rewrite format_plain.
Qed.

(** C3 (as the code has it): [UserAbort] sets [prefix_error] to
    [False], and the text of a raised [UserAbort], whatever its
    arguments, is the reflowed [argv[0]: Execution aborted with an
    error.], with no ["error: "] in front of the message.  For every
    instance, the text [__str__] returns is the reflow of: [argv[0]]
    and a colon when [prefix_name] is set, then ["error: "] exactly
    when [prefix_error] is set and [exit_status] is not 0, then the
    message with its fields replaced. *)
Theorem C3_error_prefix_placement (w : world) (self : instance)
  (pn pe : bool) (s : Z) (m a0 : string) (rest : list string) :
  class_attr (classes w) ns_prefix_name (inst_class self) = Some pn ->
  class_attr (classes w) ns_prefix_error (inst_class self) = Some pe ->
  class_attr (classes w) ns_exit_status (inst_class self) = Some s ->
  class_attr (classes w) ns_message (inst_class self) = Some m ->
  argv w = a0 :: rest ->
  fst (UserExit.__str__ self w) =
  (let* body :=
     fmt.format (classes w) (format_script (lit m)) (inst_args self)
       (str_kwargs self (argv w)) in
   Ok (format_msg
         ((if pn then lit a0 ++ lit ": " else []) ++
          (if pe && negb (Z.eqb s 0) then lit "error: " else []) ++
          body))) /\
  (forall args : list pyval,
     userexit_classes `prefix_of` classes w ->
     fst (UserExit.__str__ (Instance UserAbort_id args) w) =
     Ok (format_msg
           (lit a0 ++ lit ": " ++ lit "Execution aborted with an error." ++
            [nl]))) /\
  class_attr userexit_classes ns_prefix_error UserAbort_id = Some false.
Proof.
  intros Hn He Hs Hm Ha. split; [|split; [|reflexivity]].
  - by rewrite (str_prefixes _ _ _ _ _ _ _ _ Hn He Hs Hm Ha).
  - intros args [ext Hext].
    assert (format_script (lit "Execution aborted with an error.") =
            lit "Execution aborted with an error." ++ [nl]) as Hfs
      by (vm_compute; reflexivity).
    rewrite (str_brace_free w (Instance UserAbort_id args) true false 1%Z
               "Execution aborted with an error." a0 rest);
      try (cbn [inst_class]; rewrite Hext; reflexivity);
      [|exact Ha|by rewrite Hfs].
    cbn [fst andb]. rewrite Hfs. by rewrite <- app_assoc.
Qed.

Lemma C3_error_prefix_placement_witness :
  let self := Instance BadInputError_id [VBool true; VBool false] in
  fst (UserExit.__str__ self w_demo) =
  (let* body :=
     fmt.format demo_classes
       (format_script (lit "
        Input {!r} should be set to {!r}. Please adjust your settings
        and re-run {argv[0]!r}.
        "))
       [VBool true; VBool false] (str_kwargs self ["demo.py"%string]) in
   Ok (format_msg (lit "demo.py" ++ lit ": " ++ lit "error: " ++ body))) /\
  fst (UserExit.__str__ (Instance UserAbort_id [VInt 2]) w_demo) =
  Ok (format_msg
        (lit "demo.py" ++ lit ": " ++ lit "Execution aborted with an error." ++
         [nl])) /\
  class_attr userexit_classes ns_prefix_error UserAbort_id = Some false.
Proof.
  intros self.
  destruct (C3_error_prefix_placement w_demo self true true 3%Z "
        Input {!r} should be set to {!r}. Please adjust your settings
        and re-run {argv[0]!r}.
        " "demo.py" [] eq_refl eq_refl eq_refl eq_refl eq_refl)
    as (H1 & H2 & H3).
  split; [exact H1|]. split; [|exact H3].
  exact (H2 [VInt 2] demo_has_userexit).
Defined.

(** C3, where the claim fails: [UserAbort.prefix_error] is [False], and
    the message of a raised [UserAbort()] has no ["error: "] after the
    program name. *)
Lemma C3_abort_message_has_no_error_prefix :
  let w := World userexit_classes ["prog"%string] [] [] in
  class_attr userexit_classes ns_prefix_error UserAbort_id = Some false /\
  exit_status_of userexit_classes UserAbort_id = Some 1%Z /\
  fst (UserExit.__str__ (Instance UserAbort_id []) w) =
  Ok (lit "prog: Execution aborted with an error.") /\
  contains (lit "error: ") (lit "prog: Execution aborted with an error.") = false.
Proof. vm_compute. repeat split. Qed.

(** ** The line break at the end of the message *)

Lemma lstrip_suffix l : exists p, l = p ++ lstrip l.
Proof.
  induction l as [|c l [p IH]]; [by exists []|].
  simpl. destruct (isspace c).
  - exists (c :: p). simpl. by rewrite <- IH.
  - by exists [].
Qed.

Lemma lstrip_head l c r : lstrip l = c :: r -> isspace c = false.
Proof.
  induction l as [|d l IH]; simpl; [discriminate|].
  destruct (isspace d) eqn:E; [exact IH|].
  intros H. injection H as <- _. exact E.
Qed.

Lemma rstrip_last l front c : rstrip l = front ++ [c] -> isspace c = false.
Proof.
  unfold rstrip. intros H.
  apply (f_equal (@rev ascii)) in H.
  rewrite rev_involutive, rev_app_distr in H. simpl in H.
  exact (lstrip_head _ _ _ H).
Qed.

Lemma rstrip_prefix l : exists q, l = rstrip l ++ q.
Proof.
  unfold rstrip. destruct (lstrip_suffix (rev l)) as [p Hp].
  exists (rev p).
  rewrite <- rev_app_distr, <- Hp. by rewrite rev_involutive.
Qed.

Lemma strip_head l c r : strip l = c :: r -> isspace c = false.
Proof.
  unfold strip. intros H.
  destruct (rstrip_prefix (lstrip l)) as [q Hq].
  rewrite H in Hq. simpl in Hq. exact (lstrip_head _ _ _ Hq).
Qed.

Lemma strip_last l front c : strip l = front ++ [c] -> isspace c = false.
Proof. unfold strip. apply rstrip_last. Qed.

(** C8 (as the code has it): the dedented template, [format_script(s)],
    ends with exactly one line break and has no other white space at
    its start or at its end. *)
Theorem C8_format_script_one_line_break (s : text) :
  exists body,
    format_script s = body ++ [nl] /\
    (forall c r, body = c :: r -> isspace c = false) /\
    (forall front c, body = front ++ [c] -> isspace c = false) /\
    isspace nl = true.
Proof.
  exists (strip (textwrap.dedent s)). split; [reflexivity|].
  split; [|split; [|reflexivity]].
  - intros c r. apply strip_head.
  - intros front c. apply strip_last.
Qed.

(** C8, where the claim fails: the text [__str__] returns for
    [UserExit()] has no line break at its end ([textwrap.fill] drops
    the one [format_script] put there), and a message whose last
    paragraph shows an interactive example keeps its own. *)
Lemma C8_rendered_text_has_no_line_break :
  let w := World userexit_classes ["prog"%string] [] [] in
  UserExit.template (Instance UserExit_id []) w =
  (Ok (lit "{argv[0]}: Execution ended normally." ++ [nl]), w) /\
  fst (UserExit.__str__ (Instance UserExit_id []) w) =
  Ok (lit "prog: Execution ended normally.") /\
  last (lit "prog: Execution ended normally.") <> Some nl.
Proof. vm_compute. repeat split; try reflexivity. discriminate. Qed.

(** ** The method resolution order of the classes of a program *)

Lemma find_candidate_spec seqs rest c :
  find_candidate seqs rest = Some c ->
  good_head seqs c = true /\ exists t, In (c :: t) rest.
Proof.
  induction rest as [|[|h t] rest IH]; simpl; [discriminate| |].
  - intros H. destruct (IH H) as [G [t' Ht]]. split; [exact G|]. eauto.
  - destruct (good_head seqs h) eqn:G.
    + intros H. injection H as <-. split; [exact G|]. eauto.
    + intros H. destruct (IH H) as [G' [t' Ht]]. split; [exact G'|]. eauto.
Qed.

Lemma drop_head_incl c s x : In x (drop_head c s) -> In x s.
Proof.
  destruct s as [|h t]; simpl; [tauto|].
  destruct (Nat.eqb h c); simpl; tauto.
Qed.

Lemma existsb_eqb_false c l : existsb (Nat.eqb c) l = false -> ~ In c l.
Proof.
  intros H Hin.
  assert (existsb (Nat.eqb c) l = true) as E.
  { apply existsb_exists. exists c. split; [exact Hin|apply Nat.eqb_refl]. }
  congruence.
Qed.

Lemma not_in_existsb c l : ~ In c l -> existsb (Nat.eqb c) l = false.
Proof.
  intros H. destruct (existsb (Nat.eqb c) l) eqn:E; [|reflexivity].
  apply existsb_exists in E as [d [Hd E]]. apply Nat.eqb_eq in E. by subst.
Qed.

Lemma good_head_drops seqs c s :
  good_head seqs c = true -> In s seqs -> ~ In c (drop_head c s).
Proof.
  unfold good_head. intros G Hs.
  rewrite forallb_forall in G. specialize (G s Hs).
  apply negb_true_iff in G. destruct s as [|h t]; simpl in *; [tauto|].
  apply existsb_eqb_false in G.
  destruct (Nat.eqb h c) eqn:E; [exact G|].
  apply Nat.eqb_neq in E. simpl. intros [->|H]; [by apply E|by apply G].
Qed.

(** Every class of the merge comes from one of the merged sequences. *)
Lemma merge_aux_incl fuel : forall seqs out,
  merge_aux fuel seqs = Some out ->
  forall x, In x out -> exists s, In s seqs /\ In x s.
Proof.
  induction fuel as [|fuel IH]; intros seqs out H x Hx; simpl in H.
  - destruct (forallb is_nil seqs); [|discriminate].
    injection H as <-. destruct Hx.
  - destruct (forallb is_nil seqs); [injection H as <-; destruct Hx|].
    destruct (find_candidate seqs seqs) as [c|] eqn:F; [|discriminate].
    destruct (merge_aux fuel _) as [out'|] eqn:M; [|discriminate].
    injection H as <-. apply find_candidate_spec in F as [_ [t Ht]].
    destruct Hx as [<-|Hx].
    + exists (c :: t). split; [exact Ht|by left].
    + destruct (IH _ _ M x Hx) as [s' [Hs' Hxs]].
      apply in_map_iff in Hs' as [s [<- Hs]].
      exists s. split; [exact Hs|]. by apply (drop_head_incl c).
Qed.

(** The merge repeats no class. *)
Lemma merge_aux_NoDup fuel : forall seqs out,
  merge_aux fuel seqs = Some out -> NoDup out.
Proof.
  induction fuel as [|fuel IH]; intros seqs out H; simpl in H.
  - destruct (forallb is_nil seqs); [|discriminate].
    injection H as <-. constructor.
  - destruct (forallb is_nil seqs); [injection H as <-; constructor|].
    destruct (find_candidate seqs seqs) as [c|] eqn:F; [|discriminate].
    destruct (merge_aux fuel _) as [out'|] eqn:M; [|discriminate].
    injection H as <-. apply find_candidate_spec in F as [G _].
    apply NoDup_cons_2; [|by eapply IH].
    rewrite list_elem_of_In. intros Hc.
    destruct (merge_aux_incl _ _ _ M c Hc) as [s' [Hs' Hcs]].
    apply in_map_iff in Hs' as [s [<- Hs]].
    by apply (good_head_drops seqs c s).
Qed.

(** Merging one linearization with nothing gives it back. *)
Lemma merge_aux_single l : forall fuel,
  length l <= fuel -> NoDup l -> merge_aux fuel [l; []] = Some l.
Proof.
  induction l as [|a t IH]; intros fuel Hf Hn.
  - destruct fuel; reflexivity.
  - destruct fuel as [|fuel]; [simpl in Hf; lia|].
    apply NoDup_cons in Hn as [Ha Hn]. rewrite list_elem_of_In in Ha.
    cbn [merge_aux forallb is_nil andb find_candidate good_head in_tail].
    rewrite (not_in_existsb _ _ Ha).
    cbn [negb andb map drop_head]. rewrite Nat.eqb_refl.
    rewrite IH; [reflexivity|simpl in Hf; lia|exact Hn].
Qed.

(** A class with the one base [p] is linearized as [p]'s linearization. *)
Lemma merge_one_base p t :
  NoDup (p :: t) -> merge [p :: t; [p]] = Some (p :: t).
Proof.
  intros Hn. pose proof Hn as Hn'.
  apply NoDup_cons in Hn' as [Hp Ht]. rewrite list_elem_of_In in Hp.
  unfold merge, total_len.
  change (list_sum _) with (S (length t + 1)).
  cbn [merge_aux forallb is_nil andb find_candidate good_head in_tail
       existsb].
  rewrite (not_in_existsb _ _ Hp).
  cbn [negb andb map drop_head]. rewrite Nat.eqb_refl.
  rewrite merge_aux_single; [reflexivity|lia|exact Ht].
Qed.

Lemma all_some_spec {A B} (f : A -> option B) l : forall ys,
  all_some (map f l) = Some ys -> Forall2 (fun x y => f x = Some y) l ys.
Proof.
  induction l as [|x l IH]; intros ys H; simpl in H.
  - injection H as <-. constructor.
  - destruct (f x) as [y|] eqn:E; [|discriminate].
    destruct (all_some (map f l)) as [ys'|]; [|discriminate].
    injection H as <-. constructor; [exact E|by apply IH].
Qed.

Lemma table_ok_builtins : table_ok builtins.
Proof.
  intros i k H.
  do 10 (destruct i as [|i];
         [injection H as <-; repeat split;
          [compute_done | compute_done
          | intros p Hp;
            first [discriminate Hp
                  | injection Hp as <-; eexists; split; reflexivity]]
         |]).
  discriminate.
Qed.

Lemma class_ok_extend (ct : class_table) ext i k :
  class_ok ct i k -> class_ok (ct ++ ext) i k.
Proof.
  intros (Hh & Hn & Hf & Hb). repeat split; [exact Hh|exact Hn| |].
  - eapply Forall_impl; [exact Hf|].
    intros j Hj. cbn beta in *. rewrite length_app. lia.
  - intros p Hp. destruct (Hb p Hp) as [kp [Hk Hm]].
    exists kp. split; [|exact Hm]. by apply lookup_app_l_Some.
Qed.

Lemma table_ok_declare ct s ct' c :
  table_ok ct -> declare ct s = Ok (ct', c) -> table_ok ct'.
Proof.
  intros Hok H. unfold declare in H.
  set (bases := match st_bases s with [] => [object_id] | bs => bs end) in *.
  destruct (all_some (map (mro_of ct) bases)) as [mros|] eqn:Hall; [|discriminate].
  destruct (has_dup bases); [discriminate|].
  destruct (merge (mros ++ [bases])) as [tl|] eqn:Hm; [|discriminate].
  injection H as <- <-.
  apply all_some_spec in Hall.
  assert (forall b, In b bases -> b < length ct) as Hbase.
  { intros b Hb. apply list_elem_of_In, list_elem_of_lookup in Hb as [n Hn].
    destruct (Forall2_lookup_l _ _ _ _ _ Hall Hn) as (m & _ & Hm').
    unfold mro_of in Hm'. apply fmap_Some in Hm' as (kb & Hkb & _).
    by apply lookup_lt_Some in Hkb. }
  assert (forall x, In x tl -> x < length ct) as Hlt.
  { intros x Hx.
    destruct (merge_aux_incl _ _ _ Hm x Hx) as [q [Hq Hxq]].
    apply in_app_or in Hq as [Hq|[<-|[]]]; [|by apply Hbase].
    apply list_elem_of_In, list_elem_of_lookup in Hq as [n Hn].
    destruct (Forall2_lookup_r _ _ _ _ _ Hall Hn) as (b & _ & Hb).
    unfold mro_of in Hb. apply fmap_Some in Hb as (kb & Hkb & ->).
    destruct (Hok _ _ Hkb) as (_ & _ & Hf & _).
    rewrite Forall_forall in Hf. by apply Hf, list_elem_of_In. }
  intros i k Hlk. apply lookup_app_Some in Hlk as [Hlk|[Hge Hlk]].
  { apply class_ok_extend. by apply Hok. }
  apply list_lookup_singleton_Some in Hlk as [Hi <-].
  assert (i = length ct) as -> by lia. clear Hge Hi.
  repeat split.
  - apply NoDup_cons_2.
    + rewrite list_elem_of_In. intros Hc. apply Hlt in Hc. lia.
    + by apply (merge_aux_NoDup _ _ _ Hm).
  - apply Forall_cons. split; [rewrite length_app; simpl; lia|].
    apply Forall_forall. intros x Hx. apply list_elem_of_In, Hlt in Hx.
    rewrite length_app. lia.
  - cbn [cls_bases cls_mro]. intros p Hp. rewrite Hp in Hall, Hm.
    apply Forall2_cons_inv_l in Hall as (m & ms & Hmp & Hnil & ->).
    apply Forall2_nil_inv_l in Hnil as ->.
    unfold mro_of in Hmp. apply fmap_Some in Hmp as (kp & Hkp & ->).
    exists kp. split; [by apply lookup_app_l_Some|].
    destruct (Hok _ _ Hkp) as (Hh & Hn & _).
    destruct (cls_mro kp) as [|p' t] eqn:E; [discriminate|].
    injection Hh as ->.
    change ([p :: t] ++ [[p]]) with [p :: t; [p]] in Hm.
    rewrite (merge_one_base _ _ Hn) in Hm. by injection Hm as <-.
Qed.

Lemma loaded_table_ok ct : loaded ct -> table_ok ct.
Proof.
  induction 1 as [|ct s ct' c _ IH H]; [exact table_ok_builtins|].
  exact (table_ok_declare _ _ _ _ IH H).
Qed.

Lemma loaded_declare_all ss : forall ct ct',
  loaded ct -> declare_all ct ss = Ok ct' -> loaded ct'.
Proof.
  induction ss as [|s ss IH]; intros ct ct' L H; simpl in H.
  - by injection H as <-.
  - destruct (declare ct s) as [[ct1 c]| |] eqn:E; simpl in H; try discriminate.
    eapply IH; [|exact H]. by eapply loaded_declare.
Qed.

Lemma loaded_userexit : loaded userexit_classes.
Proof.
  exact (loaded_declare_all _ _ _ loaded_builtins userexit_module_loads).
Qed.

Lemma loaded_test : loaded test_classes.
Proof.
  exact (loaded_declare_all _ _ _ loaded_userexit test_module_loads).
Qed.

(** A class with one base and no [exit_status] in its body reads the
    status of its base. *)
Lemma one_base_inherits (ct : class_table) c k p :
  table_ok ct ->
  ct !! c = Some k ->
  cls_bases k = [p] ->
  ns_exit_status (cls_dict k) = None ->
  exit_status_of ct c = exit_status_of ct p.
Proof.
  intros Hok Hk Hb Hs.
  destruct (Hok _ _ Hk) as (_ & _ & _ & Hone).
  destruct (Hone p Hb) as (kp & Hkp & Hm).
  unfold exit_status_of, class_attr. rewrite Hk, Hkp, Hm.
  cbn [lookup_mro]. rewrite Hk, Hs. reflexivity.
Qed.

(** C4 (as the code has it): a class declared with one base, other than
    [UserAbort], and no [exit_status] of its own has the [exit_status]
    of that base, and so on along a chain of such classes.  With several
    bases the method resolution order decides, not the first base. *)
Theorem C4_single_parent_chain (ct : class_table) (c a : class_id) :
  loaded ct ->
  inherits ct c a ->
  exit_status_of ct c = exit_status_of ct a.
Proof.
  intros L H. apply loaded_table_ok in L.
  induction H as [c|c k p a Hk Hb _ Hs _ IH]; [reflexivity|].
  rewrite <- IH. by eapply one_base_inherits.
Qed.

Lemma C4_single_parent_chain_witness :
  loaded test_classes /\
  inherits test_classes BarAbortVariant_id BarAbort_id /\
  exit_status_of test_classes BarAbortVariant_id =
  exit_status_of test_classes BarAbort_id.
Proof.
  assert (inherits test_classes BarAbortVariant_id BarAbort_id) as H.
  { eapply (inherits_step test_classes BarAbortVariant_id _ BarAbort_id);
      [reflexivity | reflexivity | discriminate | reflexivity
      | apply inherits_refl]. }
  split; [exact loaded_test|]. split; [exact H|].
  exact (C4_single_parent_chain test_classes BarAbortVariant_id BarAbort_id
           loaded_test H).
Defined.

(** C4, where the claim fails: [class Both(Plain, Coded)] has no
    [exit_status] of its own and no [UserAbort] among its bases; its
    first base [Plain] has status 0, and [Both] has status 5, the one
    of [Coded], which precedes [UserExit] in the resolution order. *)
Lemma C4_first_base_does_not_decide :
  declare_all userexit_classes diamond_stmts = Ok diamond_classes /\
  mro_of diamond_classes 14 = Some [14; 12; 13; 10; 3; 1; 0] /\
  exit_status_of diamond_classes 12 = Some 0%Z /\
  exit_status_of diamond_classes 14 = Some 5%Z /\
  exit_status_of diamond_classes 14 <> exit_status_of diamond_classes 12.
Proof. vm_compute. repeat split; try reflexivity. discriminate. Qed.

(** ** An [exit_status] written in the class body *)

Lemma declared_attr {A} (f : namespace -> option A) ct s ct' c v :
  declare ct s = Ok (ct', c) ->
  f (st_body s) = Some v ->
  class_attr ct' f c = Some v.
Proof.
  intros H Hv. apply declare_appends in H as [-> [tl ->]].
  unfold class_attr. rewrite list_lookup_middle by reflexivity.
  cbn [cls_mro lookup_mro]. rewrite list_lookup_middle by reflexivity.
  cbn [cls_dict]. by rewrite Hv.
Qed.

(** Whether a class statement succeeds does not depend on the
    [exit_status] of its body. *)
Lemma declare_any_status ct s ct' c v :
  declare ct s = Ok (ct', c) ->
  exists ct'', declare ct (with_status s v) = Ok (ct'', c).
Proof.
  unfold declare. cbn [with_status st_bases st_name st_body].
  destruct (all_some _); [|discriminate].
  destruct (has_dup _); [discriminate|].
  destruct (merge _); [|discriminate].
  intros H. injection H as _ <-. eauto.
Qed.

(** A class statement changes the attributes of no class that was
    there before. *)
Lemma declare_frame {A} (f : namespace -> option A) ct s ct' c
  (d : class_id) :
  table_ok ct ->
  declare ct s = Ok (ct', c) ->
  d < length ct ->
  class_attr ct' f d = class_attr ct f d.
Proof.
  intros Hok H Hd. apply declare_appends in H as [_ [tl ->]].
  unfold class_attr. rewrite lookup_app_l by exact Hd.
  pose proof (Hok d) as Hokd. unfold class_id in *.
  destruct (ct !! d) as [k|]; [|reflexivity].
  apply lookup_mro_app. by destruct (Hokd k eq_refl) as (_ & _ & Hf & _).
Qed.

(** A class declared with [exit_status = S] in its body has exactly the
    status [S]; the statement succeeds for any other status as it does
    for [S], in or out of any range and whether or not another class
    has it; and no class declared before changes its status. *)
Theorem explicit_status_exact (ct : class_table) (s : class_stmt) (S : Z)
  (ct' : class_table) (c : class_id) :
  loaded ct ->
  ns_exit_status (st_body s) = Some S ->
  declare ct s = Ok (ct', c) ->
  exit_status_of ct' c = Some S /\
  (forall S', exists ct'',
      declare ct (with_status s (Some S')) = Ok (ct'', c) /\
      exit_status_of ct'' c = Some S') /\
  (forall d : class_id,
      d < length ct -> exit_status_of ct' d = exit_status_of ct d).
Proof.
  intros L HS H. split; [|split].
  - exact (declared_attr ns_exit_status _ _ _ _ _ H HS).
  - intros S'. destruct (declare_any_status _ _ _ _ (Some S') H) as [ct'' H'].
    exists ct''. split; [exact H'|].
    by apply (declared_attr ns_exit_status _ _ _ _ _ H').
  - intros d Hd. apply loaded_table_ok in L.
    exact (declare_frame ns_exit_status _ _ _ _ _ L H Hd).
Qed.

Lemma explicit_status_exact_witness :
  let ct' := userexit_classes ++
             [PyClass "QuxAbort" [11] [12; 11; 10; 3; 1; 0]
                (body_status_msg 127 "QuxAbort")] in
  exit_status_of ct' 12 = Some 127%Z /\
  (forall S', exists ct'',
      declare userexit_classes (with_status QuxAbort_stmt (Some S')) =
      Ok (ct'', 12) /\
      exit_status_of ct'' 12 = Some S') /\
  (forall d : class_id,
      d < length userexit_classes ->
      exit_status_of ct' d = exit_status_of userexit_classes d).
Proof.
  intros ct'.
  apply (explicit_status_exact userexit_classes QuxAbort_stmt 127%Z ct' 12);
    [exact loaded_userexit | reflexivity | reflexivity].
Defined.

(** C5, where the code departs from the claim: the status 80 that
    [FooAbort] takes by hand is not set aside, for the code keeps no
    pool of free statuses.  A class declared later with [FooAbort] and
    [UserAbort] as its bases and no status of its own reads 80 again,
    and in [test_userexit.py] the classes declared after [FooAbort]
    read 1 where [test_exit_status_automatic_assignment_skips_used]
    expects 81 and 82. *)
Theorem C5_manual_status_not_set_aside :
  declare_all userexit_classes reuse_stmts = Ok reuse_classes /\
  exit_status_of reuse_classes 12 = Some 80%Z /\
  exit_status_of reuse_classes 13 = Some 80%Z /\
  exit_status_of test_classes FooAbort_id = Some 80%Z /\
  exit_status_of test_classes BarAbortVariantC_id = Some 1%Z /\
  exit_status_of test_classes BazAbort_id = Some 1%Z.
Proof. vm_compute. repeat split. Qed.

(** * Further properties of the code *)

(** ** Rendering never misses an attribute *)

Lemma userexit_instance_has_attr {A} (f : namespace -> option A) (v : A)
  (ct : class_table) e :
  f (st_body UserExit_stmt) = Some v ->
  userexit_classes `prefix_of` ct ->
  isinstance ct e UserExit_id = true ->
  is_Some (class_attr ct f (inst_class e)).
Proof.
  intros Hv [ext ->] Hi. unfold isinstance, issubclass in Hi.
  unfold class_attr.
  destruct (_ !! inst_class e) as [k|]; [|discriminate].
  apply existsb_exists in Hi as [d [Hin Hd]].
  apply Nat.eqb_eq in Hd. subst d.
  eapply (lookup_mro_found _ _ _ UserExit_id); [exact Hin|reflexivity|exact Hv].
Qed.

(** Once [userexit] is imported, an instance of [UserExit] or of any
    subclass finds [prefix_name], [prefix_error], [exit_status] and
    [message]: building the template raises no [AttributeError], and it
    leaves the process state as it was. *)
Theorem template_never_fails (w : world) (self : instance) :
  userexit_classes `prefix_of` classes w ->
  isinstance (classes w) self UserExit_id = true ->
  exists pn pe s m,
    class_attr (classes w) ns_prefix_name (inst_class self) = Some pn /\
    class_attr (classes w) ns_prefix_error (inst_class self) = Some pe /\
    class_attr (classes w) ns_exit_status (inst_class self) = Some s /\
    class_attr (classes w) ns_message (inst_class self) = Some m /\
    UserExit.template self w =
    (Ok ((if pn then lit "{argv[0]}: " else []) ++
         (if pe && negb (Z.eqb s 0) then lit "error: " else []) ++
         format_script (lit m)), w).
Proof.
  intros Hp Hi.
  destruct (userexit_instance_has_attr ns_prefix_name true _ _ eq_refl Hp Hi)
    as [pn Hn].
  destruct (userexit_instance_has_attr ns_prefix_error true _ _ eq_refl Hp Hi)
    as [pe He].
  destruct (userexit_instance_has_attr ns_exit_status 0%Z _ _ eq_refl Hp Hi)
    as [s Hs].
  destruct (userexit_instance_has_attr ns_message _ _ _ eq_refl Hp Hi)
    as [m Hm].
  exists pn, pe, s, m. repeat (split; [assumption|]).
  unfold UserExit.template, bind, getattr, ret.
  rewrite Hn, He. destruct pn, pe; cbn beta iota; rewrite ?Hs, Hm;
    cbn beta iota; destruct (Z.eqb s 0); reflexivity.
Qed.

Lemma test_has_userexit : userexit_classes `prefix_of` test_classes.
Proof. eexists. vm_compute. reflexivity. Qed.

Lemma template_never_fails_witness :
  let w := World test_classes ["prog"%string] [] [] in
  let self := Instance BarAbortVariantC_id [] in
  exists pn pe s m,
    class_attr (classes w) ns_prefix_name (inst_class self) = Some pn /\
    class_attr (classes w) ns_prefix_error (inst_class self) = Some pe /\
    class_attr (classes w) ns_exit_status (inst_class self) = Some s /\
    class_attr (classes w) ns_message (inst_class self) = Some m /\
    UserExit.template self w =
    (Ok ((if pn then lit "{argv[0]}: " else []) ++
         (if pe && negb (Z.eqb s 0) then lit "error: " else []) ++
         format_script (lit m)), w).
Proof.
  intros w self.
  apply (template_never_fails w self); [exact test_has_userexit|reflexivity].
Defined.

(** ** What the wrapper never does *)

Lemma written_nil w : written w [] = w.
Proof. destruct w. unfold written. simpl. by rewrite app_nil_r. Qed.

(** The wrapper returns normally exactly when the callable does; it
    never turns an exception into a return.  It only appends to
    [sys.stdout]: what the callable printed stays, and the classes,
    [sys.argv] and [sys.stderr] are as the callable left them. *)
Theorem handle_never_swallows (fn : UserExit.callable) args kwargs w :
  ((exists v, fst (UserExit.handle fn args kwargs w) = Ok v) <->
   (exists v, fst (fn args kwargs w) = Ok v)) /\
  exists t,
    snd (UserExit.handle fn args kwargs w) = written (snd (fn args kwargs w)) t.
Proof.
  destruct (fn args kwargs w) as [[v|e|why] w'] eqn:H.
  - rewrite (handle_returns _ _ _ _ _ _ H). split.
    + split; intros _; eauto.
    + exists []. by rewrite written_nil.
  - destruct (isinstance (classes w') e UserExit_id) eqn:Hi.
    + rewrite (handle_intercepts _ _ _ _ _ _ H Hi).
      destruct (fst (UserExit.str_of e w')) as [t|x|y].
      * destruct (exit_status_of _ _).
        { split; [split; intros [v' Hv]; discriminate Hv|eexists; reflexivity]. }
        destruct (@no_attribute_cases pyval (classes w') (fmt.FSelf e)
                    (lit "exit_status")) as [(x & -> & _)|(y & ->)];
          (split;
           [split; intros [v' Hv]; discriminate Hv|eexists; reflexivity]).
      * split; [split; intros [v' Hv]; discriminate Hv|].
        exists []. by rewrite written_nil.
      * split; [split; intros [v' Hv]; discriminate Hv|].
        exists []. by rewrite written_nil.
    + rewrite (handle_passes _ _ _ _ _ _ H Hi).
      split; [split; intros [v' Hv]; discriminate Hv|].
      exists []. by rewrite written_nil.
  - unfold UserExit.handle, try_except, bind. rewrite H.
    split; [split; intros [v' Hv]; discriminate Hv|].
    exists []. by rewrite written_nil.
Qed.

(** ** Exceptions that are not the program's own *)

Lemma builtin_not_userexit (ext : class_table) (c : class_id) :
  c < length builtins ->
  issubclass (builtins ++ ext) c UserExit_id = false.
Proof.
  intros Hc. unfold issubclass. rewrite lookup_app_l by exact Hc.
  do 10 (destruct c as [|c]; [reflexivity|]).
  simpl in Hc. lia.
Qed.

(** An exception of a builtin class raised by the callable
    ([SystemExit] of [sys.exit], [ValueError], [KeyError], ...) leaves
    the wrapper as it came: the same exception, nothing printed. *)
Theorem handle_passes_builtin (fn : UserExit.callable) args kwargs
  (w w' : world) (e : instance) :
  fn args kwargs w = (Raise e, w') ->
  builtins `prefix_of` classes w' ->
  inst_class e < length builtins ->
  UserExit.handle fn args kwargs w = (Raise e, w').
Proof.
  intros H [ext Hext] Hc. apply (handle_passes _ _ _ _ _ _ H).
  unfold isinstance. rewrite Hext. by apply builtin_not_userexit.
Qed.

Lemma demo_has_builtins : builtins `prefix_of` demo_classes.
Proof. eexists. vm_compute. reflexivity. Qed.

Lemma handle_passes_builtin_witness :
  let e := Instance SystemExit_id [VInt 2] in
  let fn : UserExit.callable := fun _ _ => raise e in
  UserExit.handle fn [] [] w_demo = (Raise e, w_demo).
Proof.
  intros e fn.
  apply (handle_passes_builtin fn [] [] w_demo w_demo e);
    [reflexivity | exact demo_has_builtins | vm_compute; lia].
Defined.

(** ** Subclasses stay subclasses *)

Lemma drop_head_keeps c s x : In x s -> x <> c -> In x (drop_head c s).
Proof.
  destruct s as [|h t]; simpl; [tauto|].
  destruct (Nat.eqb h c) eqn:E; [|simpl; tauto].
  apply Nat.eqb_eq in E. subst h. intros [->|H] Hx; [by destruct Hx|exact H].
Qed.

Lemma forallb_is_nil seqs (s : list class_id) :
  forallb is_nil seqs = true -> In s seqs -> s = [].
Proof.
  intros H Hs. rewrite forallb_forall in H. specialize (H s Hs).
  by destruct s.
Qed.

(** A merge that succeeds has every class of every merged sequence. *)
Lemma merge_aux_complete fuel : forall seqs out,
  merge_aux fuel seqs = Some out ->
  forall s x, In s seqs -> In x s -> In x out.
Proof.
  induction fuel as [|fuel IH]; intros seqs out H s x Hs Hx; simpl in H.
  - destruct (forallb is_nil seqs) eqn:N; [|discriminate].
    rewrite (forallb_is_nil _ _ N Hs) in Hx. destruct Hx.
  - destruct (forallb is_nil seqs) eqn:N.
    { rewrite (forallb_is_nil _ _ N Hs) in Hx. destruct Hx. }
    destruct (find_candidate seqs seqs) as [c|]; [|discriminate].
    destruct (merge_aux fuel _) as [out'|] eqn:M; [|discriminate].
    injection H as <-.
    destruct (Nat.eq_dec x c) as [->|Hne]; [by left|]. right.
    apply (IH _ _ M (drop_head c s) x).
    + by apply in_map.
    + by apply drop_head_keeps.
Qed.

(** A class declared with [b] among its bases is a subclass of every
    class [b] is a subclass of: with [b] under [UserExit], the
    instances of the new class are intercepted by the wrapper. *)
Theorem declared_subclass (ct ct' : class_table) (s : class_stmt)
  (c b d : class_id) :
  declare ct s = Ok (ct', c) ->
  In b (st_bases s) ->
  issubclass ct b d = true ->
  issubclass ct' c d = true /\ issubclass ct' c c = true.
Proof.
  intros H Hb Hd. unfold declare in H.
  assert (match st_bases s with [] => [object_id] | bs => bs end = st_bases s)
    as Hbs by (destruct (st_bases s); [destruct Hb|reflexivity]).
  rewrite Hbs in H.
  destruct (all_some (map (mro_of ct) (st_bases s))) as [mros|] eqn:Hall;
    [|discriminate].
  destruct (has_dup _); [discriminate|].
  destruct (merge (mros ++ [st_bases s])) as [tl|] eqn:Hm; [|discriminate].
  injection H as <- <-.
  unfold issubclass. rewrite list_lookup_middle by reflexivity.
  cbn [cls_mro existsb]. rewrite Nat.eqb_refl. split; [|reflexivity].
  apply orb_true_iff. right. apply existsb_exists. exists d.
  split; [|apply Nat.eqb_refl].
  unfold issubclass in Hd. destruct (ct !! b) as [kb|] eqn:Hkb; [|discriminate].
  apply existsb_exists in Hd as [d' [Hin Hd']].
  apply Nat.eqb_eq in Hd'. subst d'.
  apply all_some_spec in Hall.
  apply list_elem_of_In, list_elem_of_lookup in Hb as [n Hn].
  destruct (Forall2_lookup_l _ _ _ _ _ Hall Hn) as (m & Hm' & Hmb).
  unfold mro_of in Hmb. unfold class_id in *. rewrite Hkb in Hmb.
  injection Hmb as <-.
  apply (merge_aux_complete _ _ _ Hm (cls_mro kb) d); [|exact Hin].
  apply in_or_app. left. apply list_elem_of_In, list_elem_of_lookup. eauto.
Qed.

Lemma declared_subclass_witness :
  let s := ClassStmt "Both" [BarAbort_id; FooExit_id] (body_msg "Both") in
  exists ct',
    declare test_classes s = Ok (ct', 20) /\
    issubclass ct' 20 UserExit_id = true /\ issubclass ct' 20 20 = true.
Proof.
  intros s.
  destruct (declare test_classes s) as [[ct' c]| |] eqn:H;
    [|vm_compute in H; discriminate H..].
  assert (c = 20) as -> by (vm_compute in H; by injection H as _ <-).
  exists ct'. split; [reflexivity|].
  apply (declared_subclass test_classes ct' s 20 BarAbort_id UserExit_id);
    [exact H | by left | reflexivity].
Defined.

(** ** Paragraphs *)

Lemma split_paras_step cur c d l :
  split_paras cur (c :: d :: l) =
  if Ascii.eqb c nl && Ascii.eqb d nl then rev cur :: split_paras [] l
  else split_paras (c :: cur) (d :: l).
Proof. reflexivity. Qed.

Lemma split_paras_nonempty l : forall cur, split_paras cur l <> [].
Proof.
  induction l as [l IH] using (induction_ltof1 _ (@length ascii)).
  intros cur. destruct l as [|c [|d l'']]; [discriminate..|].
  rewrite split_paras_step. destruct (Ascii.eqb c nl && Ascii.eqb d nl);
    [discriminate|].
  apply IH. unfold ltof. simpl. lia.
Qed.

Lemma join_cons sep (l : text) ls :
  ls <> [] -> join sep (l :: ls) = l ++ sep ++ join sep ls.
Proof. destruct ls; [by intros []|reflexivity]. Qed.

(** Splitting at the blank lines and joining again gives the text
    back. *)
Lemma join_split_paras l : forall cur,
  join [nl; nl] (split_paras cur l) = rev cur ++ l.
Proof.
  induction l as [l IH] using (induction_ltof1 _ (@length ascii)).
  intros cur. destruct l as [|c [|d l'']].
  - simpl. by rewrite app_nil_r.
  - reflexivity.
  - rewrite split_paras_step.
    destruct (Ascii.eqb c nl) eqn:Ec, (Ascii.eqb d nl) eqn:Ed; cbn [andb].
    + apply Ascii.eqb_eq in Ec, Ed. subst c d.
      rewrite join_cons by apply split_paras_nonempty.
      rewrite (IH l''); [reflexivity|unfold ltof; simpl; lia].
    + rewrite (IH (d :: l'')); [|unfold ltof; simpl; lia].
      simpl. by rewrite <- ?app_assoc.
    + rewrite (IH (d :: l'')); [|unfold ltof; simpl; lia].
      simpl. by rewrite <- ?app_assoc.
    + rewrite (IH (d :: l'')); [|unfold ltof; simpl; lia].
      simpl. by rewrite <- ?app_assoc.
Qed.

(** A message all of whose paragraphs show an interactive example
    ([>>>]) comes out of [format_msg] unchanged, line breaks and
    indentation included. *)
Theorem format_msg_keeps_examples (s : text) :
  Forall (fun para => contains (lit ">>>") para = true) (split_paras [] s) ->
  format_msg s = s.
Proof.
  intros H. unfold format_msg.
  rewrite <- (join_split_paras s []) at 2. f_equal.
  induction H as [|p ps Hp _ IH]; [reflexivity|].
  cbn [map]. rewrite Hp. by f_equal.
Qed.

Lemma format_msg_keeps_examples_witness :
  let s := lit "Try:
    >>> run()

and then
    >>> stop()" in
  format_msg s = s.
Proof.
  intros s. apply (format_msg_keeps_examples s).
  vm_compute. repeat constructor.
Defined.

(** ** Formatting changes white space only *)

Lemma visible_app l1 l2 : visible (l1 ++ l2) = visible l1 ++ visible l2.
Proof. apply List.filter_app. Qed.

Lemma visible_cons_space c l : isspace c = true -> visible (c :: l) = visible l.
Proof. intros H. unfold visible. simpl. by rewrite H. Qed.

Lemma visible_spaces l : forallb isspace l = true -> visible l = [].
Proof.
  induction l as [|c l IH]; [reflexivity|].
  intros H. cbn [forallb] in H. apply andb_true_iff in H as [Hc Hl].
  rewrite visible_cons_space by exact Hc. by apply IH.
Qed.

Lemma visible_rev l : visible (rev l) = rev (visible l).
Proof.
  induction l as [|c l IH]; [reflexivity|]. simpl.
  rewrite visible_app, IH. unfold visible at 2 3. simpl.
  destruct (isspace c); simpl; [by rewrite app_nil_r|reflexivity].
Qed.

Lemma visible_lstrip l : visible (lstrip l) = visible l.
Proof.
  induction l as [|c l IH]; [reflexivity|]. cbn [lstrip].
  destruct (isspace c) eqn:E; [|reflexivity].
  by rewrite visible_cons_space.
Qed.

Lemma visible_strip l : visible (strip l) = visible l.
Proof.
  unfold strip, rstrip.
  by rewrite visible_rev, visible_lstrip, visible_rev, rev_involutive,
    visible_lstrip.
Qed.

Lemma visible_join sep ls :
  forallb isspace sep = true ->
  visible (join sep ls) = concat (map visible ls).
Proof.
  intros Hs. induction ls as [|l [|l' ls] IH]; [reflexivity| |].
  - simpl. by rewrite app_nil_r.
  - change (join sep (l :: l' :: ls)) with (l ++ sep ++ join sep (l' :: ls)).
    rewrite !visible_app, IH, (visible_spaces sep Hs). reflexivity.
Qed.

Lemma split_lines_nonempty l : forall cur, split_lines cur l <> [].
Proof.
  induction l as [|c l IH]; intros cur; simpl; [discriminate|].
  destruct (Ascii.eqb c nl); [discriminate|apply IH].
Qed.

(** Splitting at the line breaks and joining again gives the text
    back. *)
Lemma join_split_lines l : forall cur,
  join [nl] (split_lines cur l) = rev cur ++ l.
Proof.
  induction l as [|c l IH]; intros cur; simpl.
  - by rewrite app_nil_r.
  - destruct (Ascii.eqb c nl) eqn:E.
    + apply Ascii.eqb_eq in E. subst c.
      rewrite join_cons by apply split_lines_nonempty. by rewrite IH.
    + rewrite IH. simpl. by rewrite <- app_assoc.
Qed.

Lemma blank_isspace c : textwrap.is_blank c = true -> isspace c = true.
Proof.
  unfold textwrap.is_blank. intros H.
  apply orb_true_iff in H as [H|H]; apply Ascii.eqb_eq in H; by subst c.
Qed.

Lemma blanks_visible l : forallb textwrap.is_blank l = true -> visible l = [].
Proof.
  intros H. apply visible_spaces. rewrite forallb_forall in *.
  intros c Hc. by apply blank_isspace, H.
Qed.

Lemma visible_clear_blank_line l :
  visible (textwrap.clear_blank_line l) = visible l.
Proof.
  unfold textwrap.clear_blank_line.
  destruct (forallb textwrap.is_blank l) eqn:E; [|reflexivity].
  by rewrite (blanks_visible l E).
Qed.

Lemma startswith_split p : forall l,
  startswith p l = true -> l = p ++ drop (length p) l.
Proof.
  induction p as [|a p IH]; intros [|b l] H; simpl in *;
    try reflexivity; try discriminate.
  apply andb_true_iff in H as [Hab Hp].
  apply Ascii.eqb_eq in Hab. subst b. f_equal. by apply IH.
Qed.

Lemma visible_remove_margin m l :
  forallb textwrap.is_blank m = true ->
  visible (textwrap.remove_margin m l) = visible l.
Proof.
  intros Hm. unfold textwrap.remove_margin.
  destruct (startswith m l) eqn:E; [|reflexivity].
  rewrite (startswith_split _ _ E) at 2.
  by rewrite visible_app, (blanks_visible m Hm).
Qed.

Lemma leading_blanks_blank l :
  forallb textwrap.is_blank (textwrap.leading_blanks l) = true.
Proof.
  induction l as [|c l IH]; [reflexivity|]. simpl.
  destruct (textwrap.is_blank c) eqn:E; [|reflexivity].
  simpl. by rewrite E, IH.
Qed.

Lemma forallb_take {A} (p : A -> bool) n l :
  forallb p l = true -> forallb p (take n l) = true.
Proof.
  revert n. induction l as [|a l IH]; intros [|n] H; try reflexivity.
  simpl in *. apply andb_true_iff in H as [Ha Hl].
  by rewrite Ha, IH.
Qed.

Lemma update_margin_blank m ind :
  blank_margin m -> forallb textwrap.is_blank ind = true ->
  blank_margin (textwrap.update_margin m ind).
Proof.
  intros Hm Hi. destruct m as [t|]; [|exact Hi]. simpl in *.
  destruct (startswith t ind); [exact Hm|].
  destruct (startswith ind t); [exact Hi|].
  destruct (textwrap.first_diff 0 t ind); [|exact Hm].
  by apply forallb_take.
Qed.

Lemma fold_margin_blank inds : forall m,
  blank_margin m ->
  Forall (fun ind => forallb textwrap.is_blank ind = true) inds ->
  blank_margin (fold_left textwrap.update_margin inds m).
Proof.
  induction inds as [|ind inds IH]; intros m Hm H; [exact Hm|].
  apply Forall_cons in H as [Hi H]. simpl.
  apply IH; [by apply update_margin_blank|exact H].
Qed.

Lemma indents_blank ls :
  Forall (fun ind => forallb textwrap.is_blank ind = true)
    (omap textwrap.indent_of ls).
Proof.
  induction ls as [|l ls IH]; [constructor|]. simpl.
  unfold textwrap.indent_of at 1.
  destruct (forallb textwrap.is_blank l); [exact IH|].
  constructor; [apply leading_blanks_blank|exact IH].
Qed.

(** [dedent] removes spaces and tabs only. *)
Lemma visible_dedent t : visible (textwrap.dedent t) = visible t.
Proof.
  unfold textwrap.dedent.
  set (ls := map textwrap.clear_blank_line (split_lines [] t)).
  assert (concat (map visible ls) = visible t) as Hls.
  { unfold ls. rewrite map_map.
    rewrite (map_ext _ visible) by apply visible_clear_blank_line.
    rewrite <- (visible_join [nl]) by reflexivity.
    by rewrite join_split_lines. }
  pose proof (fold_margin_blank (omap textwrap.indent_of ls) None I
                (indents_blank ls)) as Hm.
  destruct (fold_left _ _ _) as [[|c m]|].
  - by rewrite visible_join.
  - rewrite visible_join by reflexivity. rewrite map_map.
    rewrite (map_ext _ visible); [exact Hls|].
    intros l. by apply visible_remove_margin.
  - by rewrite visible_join.
Qed.

(** [format_script] changes white space only: the characters of the
    message that are not white space come out unchanged and in
    order. *)
Theorem format_script_keeps_visible (s : text) :
  visible (format_script s) = visible s.
Proof.
  unfold format_script.
  by rewrite visible_app, visible_strip, visible_dedent, app_nil_r.
Qed.

(** A message of white space only (or an empty one) becomes a single
    line break. *)
Theorem format_script_blank (s : text) :
  forallb isspace s = true -> format_script s = [nl].
Proof.
  intros H. unfold format_script.
  assert (visible (strip (textwrap.dedent s)) = []) as Hv.
  { by rewrite visible_strip, visible_dedent, visible_spaces. }
  destruct (strip (textwrap.dedent s)) as [|c r] eqn:E; [reflexivity|].
  pose proof (strip_head _ _ _ E) as Hc.
  unfold visible in Hv. simpl in Hv. rewrite Hc in Hv. discriminate.
Qed.

Lemma format_script_blank_witness :
  format_script (lit "
      
  ") = [nl].
Proof. apply format_script_blank. reflexivity. Defined.

(** ** Wrapping a paragraph *)

Lemma wrap_chunks_round fuel lines c0 rest0 :
  textwrap.wrap_chunks (S fuel) lines (c0 :: rest0) =
  let '(line3, rest2) := wrap_round (bool_decide (lines = [])) (c0 :: rest0) in
  match line3 with
  | [] => textwrap.wrap_chunks fuel lines rest2
  | _ => textwrap.wrap_chunks fuel (lines ++ [concat line3]) rest2
  end.
Proof.
  cbn [textwrap.wrap_chunks wrap_round].
  destruct (textwrap.take_fitting 0 _) as [[line len] rest].
  destruct rest as [|c rest']; [reflexivity|].
  destruct (textwrap.width <? length c); reflexivity.
Qed.

Lemma take_fitting_spec chunks : forall cur line len rest,
  textwrap.take_fitting cur chunks = (line, len, rest) ->
  cur <= textwrap.width ->
  chunks = line ++ rest /\
  len = cur + length (concat line) /\
  len <= textwrap.width /\
  (line = [] ->
   match chunks with
   | c :: _ => textwrap.width < cur + length c
   | [] => True
   end).
Proof.
  induction chunks as [|c chunks IH]; intros cur line len rest H Hc;
    cbn [textwrap.take_fitting] in H.
  - injection H as <- <- <-. simpl. repeat split; [lia|exact Hc].
  - destruct (cur + length c <=? textwrap.width) eqn:E.
    + apply Nat.leb_le in E.
      destruct (textwrap.take_fitting _ chunks) as [[line' len'] rest'] eqn:T.
      injection H as <- <- <-.
      destruct (IH _ _ _ _ T E) as (-> & -> & Hl & _).
      repeat split; [|exact Hl|discriminate].
      simpl. rewrite length_app. lia.
    + apply Nat.leb_gt in E. injection H as <- <- <-. simpl.
      repeat split; [lia|exact Hc|intros _; exact E].
Qed.

Lemma rfind_hyphen_bound n : forall i c j,
  textwrap.rfind_hyphen i n c = Some j -> i <= j < i + n.
Proof.
  induction n as [|n IH]; intros i c j H; [discriminate|].
  destruct c as [|x c]; [discriminate|]. cbn [textwrap.rfind_hyphen] in H.
  destruct (textwrap.rfind_hyphen (S i) n c) as [j'|] eqn:R.
  - injection H as <-. apply IH in R. lia.
  - destruct (Ascii.eqb x hyphen); [|discriminate]. injection H as <-. lia.
Qed.

Lemma long_word_cut_le chunk space_left :
  textwrap.long_word_cut chunk space_left <= space_left.
Proof.
  unfold textwrap.long_word_cut.
  destruct (space_left <? length chunk); [|lia].
  destruct (textwrap.rfind_hyphen 0 space_left chunk) as [h|] eqn:R; [|lia].
  apply rfind_hyphen_bound in R.
  destruct ((0 <? h) && _); lia.
Qed.

Lemma long_word_cut_pos chunk space_left :
  0 < space_left -> 0 < textwrap.long_word_cut chunk space_left.
Proof.
  intros H. unfold textwrap.long_word_cut.
  destruct (space_left <? length chunk); [|lia].
  destruct (textwrap.rfind_hyphen 0 space_left chunk) as [h|]; [|lia].
  destruct ((0 <? h) && _); lia.
Qed.

Lemma drop_last_blank_spec line :
  textwrap.drop_last_blank line = line \/
  exists c, line = textwrap.drop_last_blank line ++ [c] /\
            textwrap.blank_chunk c = true.
Proof.
  unfold textwrap.drop_last_blank.
  destruct (rev line) as [|c r] eqn:E; [by left|].
  destruct (textwrap.blank_chunk c) eqn:B; [|by left].
  right. exists c. split; [|exact B].
  rewrite <- (rev_involutive line), E. reflexivity.
Qed.

Lemma visible_concat_drop_last_blank line :
  visible (concat (textwrap.drop_last_blank line)) = visible (concat line).
Proof.
  destruct (drop_last_blank_spec line) as [->|(c & E & B)]; [reflexivity|].
  rewrite E at 2. rewrite concat_app, visible_app. simpl.
  rewrite app_nil_r, (visible_spaces c B). by rewrite app_nil_r.
Qed.

Lemma length_concat_drop_last_blank line :
  length (concat (textwrap.drop_last_blank line)) <= length (concat line).
Proof.
  destruct (drop_last_blank_spec line) as [->|(c & E & B)]; [lia|].
  rewrite E at 2. rewrite concat_app, length_app. lia.
Qed.

(** What one round does: the line fits the width, no visible character
    is lost, and the chunks left are fewer characters than before. *)
Lemma wrap_round_spec first chunks line3 rest2 :
  chunks <> [] ->
  Forall (fun c => c <> []) chunks ->
  wrap_round first chunks = (line3, rest2) ->
  visible (concat line3) ++ visible (concat rest2) = visible (concat chunks) /\
  length (concat line3) <= textwrap.width /\
  Forall (fun c => c <> []) rest2 /\
  length (concat rest2) < length (concat chunks).
Proof.
  intros Hne Hall H. destruct chunks as [|c0 rest0]; [by destruct Hne|].
  clear Hne. cbn [wrap_round] in H.
  set (chunks1 := if textwrap.blank_chunk c0 && negb first
                  then rest0 else c0 :: rest0) in *.
  assert (visible (concat chunks1) = visible (concat (c0 :: rest0)) /\
          Forall (fun c => c <> []) chunks1 /\
          (chunks1 = c0 :: rest0 \/
           length (concat chunks1) < length (concat (c0 :: rest0))))
    as (Hv1 & Hall1 & Hlen1).
  { apply Forall_cons in Hall as [Hc0 Hall]. unfold chunks1.
    destruct (textwrap.blank_chunk c0 && negb first) eqn:B.
    - apply andb_true_iff in B as [B _]. simpl.
      rewrite visible_app, (visible_spaces c0 B). split; [reflexivity|].
      split; [exact Hall|]. right. rewrite length_app.
      destruct c0; [by destruct Hc0|simpl; lia].
    - split; [reflexivity|]. split; [by constructor|by left]. }
  destruct (textwrap.take_fitting 0 chunks1) as [[line len] rest] eqn:T.
  destruct (take_fitting_spec _ _ _ _ _ T (Nat.le_0_l _))
    as (Hsplit & Hlen & Hw & Hprog).
  simpl in Hlen. subst len.
  assert (exists line2,
             line3 = textwrap.drop_last_blank line2 /\
             concat line2 ++ concat rest2 = concat chunks1 /\
             length (concat line2) <= textwrap.width /\
             Forall (fun c => c <> []) rest2 /\
             (chunks1 = c0 :: rest0 -> 0 < length (concat line2)))
    as (line2 & -> & Hcat & Hw2 & Hall2 & Hpos).
  { rewrite Hsplit in Hall1. apply Forall_app in Hall1 as [Hline Hrest].
    destruct rest as [|c rest'].
    - injection H as <- <-. exists line. split; [reflexivity|].
      rewrite Hsplit, app_nil_r. simpl. rewrite app_nil_r.
      split; [reflexivity|]. split; [exact Hw|]. split; [constructor|].
      intros E. rewrite app_nil_r in Hsplit. rewrite E in Hsplit.
      subst line. simpl. rewrite length_app.
      apply Forall_cons in Hline as [Hc0 _].
      destruct c0; [by destruct Hc0|simpl; lia].
    - apply Forall_cons in Hrest as [Hc Hrest'].
      destruct (textwrap.width <? length c) eqn:E.
      + apply Nat.ltb_lt in E. injection H as <- <-.
        set (e := textwrap.long_word_cut c
                    (textwrap.width - length (concat line))).
        pose proof (long_word_cut_le c
                      (textwrap.width - length (concat line))) as He.
        fold e in He.
        exists (line ++ [take e c]). split; [reflexivity|].
        split; [|split; [|split]].
        * rewrite Hsplit, !concat_app. simpl. rewrite !app_nil_r.
          rewrite <- app_assoc. f_equal. rewrite app_assoc.
          by rewrite take_drop.
        * rewrite concat_app, length_app. simpl. rewrite app_nil_r.
          rewrite length_take. lia.
        * constructor; [|exact Hrest'].
          intros Hd. apply (f_equal (@length ascii)) in Hd.
          rewrite length_drop in Hd. simpl in Hd. lia.
        * intros E1. rewrite concat_app, length_app. simpl.
          rewrite app_nil_r, length_take.
          destruct line as [|l0 line'].
          -- simpl in *.
             pose proof (long_word_cut_pos c textwrap.width) as Hp.
             unfold e. simpl. unfold textwrap.width in *.
             specialize (Hp ltac:(lia)). lia.
          -- apply Forall_cons in Hline as [Hl0 _]. simpl.
             rewrite length_app. destruct l0; [by destruct Hl0|simpl; lia].
      + injection H as <- <-. exists line. split; [reflexivity|].
        split; [by rewrite Hsplit, concat_app|]. split; [exact Hw|].
        split; [by constructor|].
        intros E1. destruct line as [|l0 line'].
        * specialize (Hprog eq_refl). rewrite E1 in Hprog.
          apply Nat.ltb_ge in E. rewrite E1 in Hsplit.
          simpl in Hsplit. injection Hsplit as -> _. simpl in Hprog. lia.
        * apply Forall_cons in Hline as [Hl0 _]. simpl.
          rewrite length_app. destruct l0; [by destruct Hl0|simpl; lia]. }
  split; [|split; [|split]].
  - rewrite visible_concat_drop_last_blank, <- visible_app, Hcat. exact Hv1.
  - pose proof (length_concat_drop_last_blank line2). lia.
  - exact Hall2.
  - apply (f_equal (@length ascii)) in Hcat. rewrite length_app in Hcat.
    destruct Hlen1 as [E|Hlt].
    + specialize (Hpos E). rewrite E in Hcat. lia.
    + lia.
Qed.

Lemma wrap_chunks_visible fuel : forall lines chunks,
  Forall (fun c => c <> []) chunks ->
  length (concat chunks) < fuel ->
  concat (map visible (textwrap.wrap_chunks fuel lines chunks)) =
  concat (map visible lines) ++ visible (concat chunks).
Proof.
  induction fuel as [|fuel IH]; intros lines chunks Hall Hf; [lia|].
  destruct chunks as [|c0 rest0].
  { simpl. by rewrite app_nil_r. }
  rewrite wrap_chunks_round.
  destruct (wrap_round _ _) as [line3 rest2] eqn:R.
  assert (c0 :: rest0 <> []) as Hne by discriminate.
  destruct (wrap_round_spec _ _ _ _ Hne Hall R) as (Hv & _ & Hall2 & Hlt).
  rewrite <- Hv. destruct line3 as [|l3 line3'].
  - rewrite IH; [reflexivity|exact Hall2|lia].
  - rewrite IH; [|exact Hall2|lia].
    rewrite map_app, concat_app. simpl. by rewrite app_nil_r, <- app_assoc.
Qed.

Lemma wrap_chunks_width fuel : forall lines chunks,
  Forall (fun c => c <> []) chunks ->
  Forall (fun l => 0 < length l <= textwrap.width) lines ->
  Forall (fun l => 0 < length l <= textwrap.width)
    (textwrap.wrap_chunks fuel lines chunks).
Proof.
  induction fuel as [|fuel IH]; intros lines chunks Hall Hl.
  { destruct chunks; exact Hl. }
  destruct chunks as [|c0 rest0]; [exact Hl|].
  rewrite wrap_chunks_round.
  destruct (wrap_round _ _) as [line3 rest2] eqn:R.
  assert (c0 :: rest0 <> []) as Hne by discriminate.
  destruct (wrap_round_spec _ _ _ _ Hne Hall R) as (_ & Hw & Hall2 & _).
  assert (Forall (fun c => c <> []) line3) as Hne3.
  { cbn [wrap_round] in R.
    destruct (textwrap.take_fitting 0 _) as [[line len] rest] eqn:T.
    assert (Forall (fun c : text => c <> []) line) as Hline.
    { destruct (take_fitting_spec _ _ _ _ _ T (Nat.le_0_l _)) as (Hs & _).
      assert (Forall (fun c : text => c <> [])
                (if textwrap.blank_chunk c0 && negb (bool_decide (lines = []))
                 then rest0 else c0 :: rest0)) as Hc1.
      { apply Forall_cons in Hall as [? ?].
        destruct (_ && _); [assumption|by constructor]. }
      rewrite Hs in Hc1. by apply Forall_app in Hc1 as [? _]. }
    assert (forall l2 : list text,
              Forall (fun c : text => c <> []) (removelast l2) ->
              Forall (fun c : text => c <> []) (textwrap.drop_last_blank l2))
      as Hdrop.
    { intros l2 H2. unfold textwrap.drop_last_blank.
      destruct (rev l2) as [|c r] eqn:E.
      { assert (l2 = []) as ->
          by (rewrite <- (rev_involutive l2), E; reflexivity).
        constructor. }
      assert (l2 = rev r ++ [c]) as ->
        by (rewrite <- (rev_involutive l2), E; reflexivity).
      rewrite removelast_last in H2.
      destruct (textwrap.blank_chunk c) eqn:B; [exact H2|].
      apply Forall_app. split; [exact H2|].
      constructor; [|constructor]. intros ->. discriminate B. }
    destruct rest as [|c rest'].
    - injection R as <- _. apply Hdrop.
      clear -Hline. induction Hline as [|x l Hx Hl IH]; [constructor|].
      destruct l; [constructor|]. simpl. by constructor.
    - destruct (textwrap.width <? length c).
      + injection R as <- _. apply Hdrop. by rewrite removelast_last.
      + injection R as <- _. apply Hdrop.
        clear -Hline. induction Hline as [|x l Hx Hl IH]; [constructor|].
        destruct l; [constructor|]. simpl. by constructor. }
  destruct line3 as [|l3 line3']; [by apply IH|].
  apply IH; [exact Hall2|]. apply Forall_app. split; [exact Hl|].
  constructor; [|constructor]. split; [|exact Hw].
  apply Forall_cons in Hne3 as [H3 _]. simpl. rewrite length_app.
  destruct l3; [by destruct H3|simpl; lia].
Qed.

Lemma span_length (p : ascii -> bool) c l :
  p c = true -> 0 < length (fst (textwrap.span p (c :: l))).
Proof.
  intros H. cbn [textwrap.span]. rewrite H.
  destruct (textwrap.span p l). simpl. lia.
Qed.

Lemma chunk_len_pos before c l : 0 < textwrap.chunk_len before (c :: l).
Proof.
  unfold textwrap.chunk_len. destruct (textwrap.is_ws c) eqn:W.
  - by apply span_length.
  - destruct (if textwrap.preceded_by _ _ then _ else None) as [n|] eqn:E;
      [|lia].
    destruct (textwrap.preceded_by _ _); [|discriminate].
    unfold textwrap.em_dash in E.
    destruct (textwrap.span _ _) as [hs rest].
    destruct rest as [|d rest]; [discriminate|].
    destruct ((2 <=? length hs) && _) eqn:G; [|discriminate].
    injection E as <-. apply andb_true_iff in G as [G _].
    apply Nat.leb_le in G. lia.
Qed.

Lemma split_chunks_concat fuel : forall before l,
  concat (textwrap.split_chunks fuel before l) = l.
Proof.
  induction fuel as [|fuel IH]; intros before [|c l]; try reflexivity.
  - simpl. by rewrite app_nil_r.
  - cbn [textwrap.split_chunks concat]. rewrite IH. apply take_drop.
Qed.

Lemma split_chunks_nonempty fuel : forall before l,
  Forall (fun c => c <> []) (textwrap.split_chunks fuel before l).
Proof.
  induction fuel as [|fuel IH]; intros before [|c l]; try constructor.
  - discriminate.
  - constructor.
  - pose proof (chunk_len_pos before c l) as Hp.
    destruct (textwrap.chunk_len before (c :: l)); [lia|discriminate].
  - apply IH.
Qed.

Lemma ws_isspace c : textwrap.is_ws c = true -> isspace c = true.
Proof.
  unfold textwrap.is_ws, isspace. intros H.
  apply orb_true_iff in H as [H|H]; apply orb_true_iff.
  - by left.
  - right. apply Nat.eqb_eq in H. rewrite H. reflexivity.
Qed.

Lemma visible_cons c l :
  visible (c :: l) = (if isspace c then [] else [c]) ++ visible l.
Proof. unfold visible. simpl. by destruct (isspace c). Qed.

Lemma visible_repeat_space n l : visible (repeat space n ++ l) = visible l.
Proof. induction n as [|n IH]; [reflexivity|]. simpl. exact IH. Qed.

Lemma visible_expandtabs l : forall col,
  visible (textwrap.expandtabs col l) = visible l.
Proof.
  induction l as [|c l IH]; intros col; [reflexivity|].
  cbn [textwrap.expandtabs].
  destruct (Ascii.eqb c tab) eqn:T.
  - apply Ascii.eqb_eq in T. subst c.
    rewrite visible_repeat_space, IH. reflexivity.
  - destruct (_ || _); by rewrite !visible_cons, IH.
Qed.

Lemma visible_munge l : visible (textwrap.munge_whitespace l) = visible l.
Proof.
  unfold textwrap.munge_whitespace. rewrite <- (visible_expandtabs l 0).
  induction (textwrap.expandtabs 0 l) as [|c t IH]; [reflexivity|].
  cbn [map]. destruct (textwrap.is_ws c) eqn:W.
  - rewrite (visible_cons_space c) by (by apply ws_isspace).
    rewrite visible_cons_space by reflexivity. exact IH.
  - by rewrite !visible_cons, IH.
Qed.

(** [textwrap.fill] changes white space only. *)
Lemma fill_keeps_visible t : visible (textwrap.fill t) = visible t.
Proof.
  unfold textwrap.fill, textwrap.wrap.
  rewrite visible_join by reflexivity.
  rewrite wrap_chunks_visible.
  - simpl. by rewrite split_chunks_concat, visible_munge.
  - apply split_chunks_nonempty.
  - rewrite split_chunks_concat. lia.
Qed.

(** [format_msg] changes white space only: wrapping loses, adds and
    reorders no character of the message other than white space. *)
Theorem format_msg_keeps_visible (s : text) :
  visible (format_msg s) = visible s.
Proof.
  unfold format_msg. rewrite visible_join by reflexivity.
  rewrite <- (join_split_paras s []) at 2.
  rewrite visible_join by reflexivity. f_equal.
  rewrite map_map. apply map_ext. intros para.
  destruct (contains _ para); [reflexivity|apply fill_keeps_visible].
Qed.

(** Every line that [textwrap.wrap] makes of a paragraph has between 1
    and 70 characters. *)
Lemma wrap_width t :
  Forall (fun l => 0 < length l <= textwrap.width) (textwrap.wrap t).
Proof.
  unfold textwrap.wrap. apply wrap_chunks_width; [|constructor].
  apply split_chunks_nonempty.
Qed.

(** [format_msg] gives the paragraphs of the message in their order,
    two line breaks between them: a paragraph with [>>>] as it is, any
    other one as lines of 1 to 70 characters with one line break
    between them. *)
Theorem format_msg_wraps (s : text) :
  exists outs,
    format_msg s = join [nl; nl] outs /\
    Forall2
      (fun para out =>
         if contains (lit ">>>") para then out = para
         else exists lines,
             out = join [nl] lines /\
             Forall (fun l => 0 < length l <= 70) lines)
      (split_paras [] s) outs.
Proof.
  eexists. split; [reflexivity|].
  induction (split_paras [] s) as [|para ps IH]; [constructor|].
  cbn [map]. constructor; [|exact IH].
  destruct (contains _ para); [reflexivity|].
  exists (textwrap.wrap para). split; [reflexivity|apply wrap_width].
Qed.

(** ** Messages without placeholders *)

(** A message without braces renders for any arguments: the text is
    [argv[0]] and a colon when [prefix_name] is set, ["error: "] when
    [prefix_error] is set and the status is not 0, and the dedented
    message, reflowed by [format_msg]; the process state is left as it
    was. *)
Theorem str_plain_message (w : world) (self : instance)
  (pn pe : bool) (s : Z) (m a0 : string) (rest : list string) :
  class_attr (classes w) ns_prefix_name (inst_class self) = Some pn ->
  class_attr (classes w) ns_prefix_error (inst_class self) = Some pe ->
  class_attr (classes w) ns_exit_status (inst_class self) = Some s ->
  class_attr (classes w) ns_message (inst_class self) = Some m ->
  argv w = a0 :: rest ->
  brace_free (format_script (lit m)) = true ->
  UserExit.__str__ self w =
  (Ok (format_msg
         ((if pn then lit a0 ++ lit ": " else []) ++
          (if pe && negb (Z.eqb s 0) then lit "error: " else []) ++
          format_script (lit m))), w).
Proof. apply str_brace_free. Qed.

Lemma str_plain_message_witness :
  let w := World test_classes ["prog"%string; "-v"%string] [] [] in
  UserExit.__str__ (Instance QuxAbort_id [VInt 7]) w =
  (Ok (format_msg (lit "prog" ++ lit ": " ++ [] ++ format_script (lit "QuxAbort"))),
   w).
Proof.
  intros w.
  apply (str_plain_message w (Instance QuxAbort_id [VInt 7]) true false 127%Z
           "QuxAbort" "prog" ["-v"%string]); reflexivity.
Defined.

(** With [prefix_name] set and an empty [sys.argv], rendering raises
    the [IndexError] of [argv[0]], whatever the message and the
    arguments; the wrapper then lets that exception out. *)
Theorem str_empty_argv (w : world) (self : instance) :
  userexit_classes `prefix_of` classes w ->
  isinstance (classes w) self UserExit_id = true ->
  class_attr (classes w) ns_prefix_name (inst_class self) = Some true ->
  argv w = [] ->
  UserExit.__str__ self w =
  (Raise (exc IndexError_id "list index out of range"), w).
Proof.
  intros Hp Hi Hn Ha.
  destruct (userexit_instance_has_attr ns_prefix_error true _ _ eq_refl Hp Hi)
    as [pe He].
  destruct (userexit_instance_has_attr ns_exit_status 0%Z _ _ eq_refl Hp Hi)
    as [s Hs].
  destruct (userexit_instance_has_attr ns_message _ _ _ eq_refl Hp Hi)
    as [m Hm].
  rewrite (str_of_template _ _ _ (template_value _ _ _ _ _ _ Hn He Hs Hm)).
  unfold fmt.format. rewrite Ha.
  change (length (lit "{argv[0]}: " ++ ?X)) with (S (10 + length X)).
  by rewrite name_prefix_fails.
Qed.

Lemma str_empty_argv_witness :
  UserExit.__str__ (Instance BazAbort_id []) (World test_classes [] [] []) =
  (Raise (exc IndexError_id "list index out of range"),
   World test_classes [] [] []).
Proof.
  apply (str_empty_argv (World test_classes [] [] []) (Instance BazAbort_id []));
    [exact test_has_userexit | reflexivity | reflexivity | reflexivity].
Defined.

(** ** The exceptions rendering can raise *)

Lemma builtin_rbind {A B} (r : result A) (k : A -> result B) :
  builtin_raise r -> (forall a, builtin_raise (k a)) ->
  builtin_raise (rbind r k).
Proof. destruct r; simpl; auto. Qed.

Lemma builtin_ValueError {A} msg : builtin_raise (@fmt.ValueError msg A).
Proof. cbv; lia. Qed.

Lemma builtin_raise_text {A} c msg :
  c < length builtins -> builtin_raise (@fmt.raise_text A c msg).
Proof. intros H. exact H. Qed.

Lemma builtin_instance {A} c args :
  c < length builtins -> builtin_raise (@Raise A (Instance c args)).
Proof. intros H. exact H. Qed.

Ltac builtin_now :=
  first [ exact I
        | apply builtin_ValueError
        | apply builtin_raise_text; lazy; lia
        | apply builtin_instance; lazy; lia
        | match goal with |- _ < _ => lazy; lia end ].

Lemma builtin_type_name ct o : builtin_raise (fmt.type_name ct o).
Proof.
  destruct o as [v|x]; [exact I|]. simpl. by destruct (ct !! inst_class x).
Qed.

(** The steps of a proof that a function of [str.format] raises
    exceptions of builtin classes only. *)
Ltac builtin_step :=
  repeat first
    [ exact I
    | assumption
    | apply builtin_ValueError
    | apply builtin_type_name
    | apply builtin_raise_text; lazy; lia
    | apply builtin_instance; lazy; lia
    | apply builtin_rbind; [|intros] ].

Lemma scan_field_name_builtin l : forall b acc,
  builtin_raise (fmt.scan_field_name b acc l).
Proof.
  induction l as [|c l IH]; intros b acc; simpl; [builtin_now|].
  destruct b; [apply IH|].
  destruct (Ascii.eqb c fmt.lbrace); [builtin_now|].
  destruct (Ascii.eqb c fmt.lbracket); [apply IH|].
  destruct (_ || _); [exact I|apply IH].
Qed.

Lemma scan_spec_builtin l : forall n b acc,
  builtin_raise (fmt.scan_spec n b acc l).
Proof.
  induction l as [|c l IH]; intros n b acc; simpl; [builtin_now|].
  destruct (Ascii.eqb c fmt.lbrace); [apply IH|].
  destruct (Ascii.eqb c fmt.rbrace); [|apply IH].
  destruct n; [exact I|apply IH].
Qed.

Lemma parse_field_builtin l : builtin_raise (fmt.parse_field l).
Proof.
  unfold fmt.parse_field.
  apply builtin_rbind; [apply scan_field_name_builtin|].
  intros [[name c] rest].
  assert (forall conv l', builtin_raise
            (let* s := fmt.scan_spec 0 false [] l' in
             let '(sp, nested, rest') := s in
             Ok (fmt.Field name conv sp nested, rest'))) as Hspec.
  { intros conv l'. apply builtin_rbind; [apply scan_spec_builtin|].
    by intros [[sp nested] rest']. }
  destruct (Ascii.eqb c fmt.bang).
  - destruct rest as [|conv [|d rest2]]; [builtin_now|apply Hspec|].
    destruct (Ascii.eqb d fmt.rbrace); [exact I|].
    destruct (Ascii.eqb d fmt.colon); [apply Hspec|builtin_now].
  - destruct (Ascii.eqb c fmt.colon); [apply Hspec|exact I].
Qed.

Lemma get_integer_loop_builtin l : forall acc,
  builtin_raise (fmt.get_integer_loop acc l).
Proof.
  induction l as [|c l IH]; intros acc; simpl; [exact I|].
  destruct (fmt.is_digit c); [|exact I].
  destruct (_ <? _)%N; [builtin_now|apply IH].
Qed.

Lemma get_integer_builtin l : builtin_raise (fmt.get_integer l).
Proof. destruct l; [exact I|apply get_integer_loop_builtin]. Qed.

Lemma spec_integer_builtin l : forall acc n,
  builtin_raise (fmt.spec_integer acc n l).
Proof.
  induction l as [|c l IH]; intros acc n; simpl; [exact I|].
  destruct (fmt.is_digit c); [|exact I].
  destruct (_ <? _)%N; [builtin_now|apply IH].
Qed.

Lemma not_subscriptable_builtin {A} ct o :
  builtin_raise (@fmt.not_subscriptable ct o A).
Proof. unfold fmt.not_subscriptable. builtin_step. Qed.

Lemma no_attribute_builtin {A} ct o name :
  builtin_raise (@fmt.no_attribute ct o name A).
Proof. unfold fmt.no_attribute. builtin_step. Qed.

Lemma getitem_builtin ct o idx : builtin_raise (fmt.getitem ct o idx).
Proof.
  unfold fmt.getitem.
  destruct o as [[| | |s|l|l]|x], idx as [i|];
    try apply not_subscriptable_builtin; try builtin_now;
    destruct (fmt.nth_N _ i); builtin_now.
Qed.

Lemma attr_value_builtin {A} (inj : A -> pyval) ct o name a :
  builtin_raise (fmt.attr_value inj ct o name a).
Proof. destruct a; [exact I|apply no_attribute_builtin]. Qed.

Lemma fmt_getattr_builtin ct o name : builtin_raise (fmt.getattr ct o name).
Proof.
  unfold fmt.getattr. destruct (startswith _ name); [exact I|].
  destruct o as [v|x].
  - destruct (fmt.is_in _ _); [exact I|apply no_attribute_builtin].
  - repeat (destruct (String.eqb _ _);
            [first [exact I | apply attr_value_builtin]|]).
    destruct (fmt.is_in _ _); [exact I|apply no_attribute_builtin].
Qed.

Lemma access_builtin fuel : forall ct o l,
  builtin_raise (fmt.access fuel ct o l).
Proof.
  induction fuel as [|fuel IH]; intros ct o [|c l]; try exact I.
  cbn [fmt.access].
  destruct (Ascii.eqb c fmt.dot).
  - destruct (fmt.until _ l) as [[|n name] rest]; [builtin_now|].
    apply builtin_rbind; [apply fmt_getattr_builtin|]. intros; apply IH.
  - destruct (Ascii.eqb c fmt.lbracket); [|builtin_now].
    destruct (fmt.until _ l) as [key [|r rest']]; [builtin_now|].
    apply builtin_rbind; [apply get_integer_builtin|]. intros idx.
    destruct key; [builtin_now|].
    apply builtin_rbind; [apply getitem_builtin|]. intros; apply IH.
Qed.

Lemma get_field_object_builtin e an name :
  builtin_raise (fmt.get_field_object e an name).
Proof.
  unfold fmt.get_field_object.
  destruct (fmt.until _ name) as [first rest].
  apply builtin_rbind; [apply get_integer_builtin|]. intros first_idx.
  apply builtin_rbind.
  { destruct first as [|c first].
    - destruct an; builtin_now.
    - destruct first_idx; [|exact I]. destruct an; builtin_now. }
  intros [idx an']. apply builtin_rbind.
  { destruct idx as [i|].
    - destruct (fmt.nth_N _ i); builtin_now.
    - destruct (fmt.assoc _ _); builtin_now. }
  intros o. apply builtin_rbind; [apply access_builtin|]. intros; exact I.
Qed.

Lemma slot_builtin ct x c name t : builtin_raise (fmt.slot ct x c name t).
Proof. unfold fmt.slot. destruct (isinstance ct x c); builtin_step. Qed.

Lemma slot_str_builtin ct x m : builtin_raise (fmt.slot_str ct x m).
Proof.
  destruct m; cbn [fmt.slot_str]; try apply slot_builtin; [|exact I].
  destruct (isinstance _ _ _); builtin_step.
Qed.

Lemma str_self_builtin ct x : builtin_raise (fmt.str_self ct x).
Proof.
  unfold fmt.str_self. destruct (class_attr _ _ _); [|exact I].
  apply slot_str_builtin.
Qed.

Lemma repr_obj_builtin ct o : builtin_raise (fmt.repr_obj ct o).
Proof.
  destruct o; [exact I|]. cbn [fmt.repr_obj].
  destruct (isinstance _ _ _); builtin_step.
Qed.

Lemma str_obj_builtin ct o : builtin_raise (fmt.str_obj ct o).
Proof. destruct o; [exact I|apply str_self_builtin]. Qed.

Lemma do_conversion_builtin ct o c : builtin_raise (fmt.do_conversion ct o c).
Proof.
  unfold fmt.do_conversion.
  destruct (Ascii.eqb c "r");
    [apply builtin_rbind; [apply repr_obj_builtin|intros; exact I]|].
  destruct (Ascii.eqb c "s");
    [apply builtin_rbind; [apply str_obj_builtin|intros; exact I]|].
  destruct (Ascii.eqb c "a");
    [apply builtin_rbind; [apply repr_obj_builtin|intros; exact I]|].
  builtin_now.
Qed.

Lemma parse_spec_builtin tp spec dt da :
  builtin_raise (fmt.parse_internal_render_format_spec tp spec dt da).
Proof.
  unfold fmt.parse_internal_render_format_spec.
  destruct (match spec with [] => _ | _ => _ end) as [[[[fill algn] fs] al] l1].
  destruct (fmt.eat _ l1) as [sgn l2].
  destruct (fmt.eat _ l2) as [z l3].
  destruct (fmt.eat _ l3) as [alt l4].
  destruct (match l4 with [] => _ | _ => _ end) as [[fill' algn'] l5].
  apply builtin_rbind; [apply spec_integer_builtin|]. intros [[wv wn] l6].
  destruct (fmt.eat _ l6) as [comma l7].
  apply builtin_rbind.
  { destruct l7 as [|c r]; [exact I|].
    destruct (Ascii.eqb c "_"); [|exact I].
    destruct comma; builtin_now. }
  intros [th l8]. apply builtin_rbind.
  { destruct l8 as [|c r]; [exact I|]. destruct th; try exact I.
    destruct (Ascii.eqb c ","); builtin_now. }
  intros _. apply builtin_rbind.
  { destruct l8 as [|c r]; [exact I|].
    destruct (Ascii.eqb c "."); [|exact I].
    apply builtin_rbind; [apply spec_integer_builtin|]. intros [[pv pn] r'].
    destruct (pn =? 0); builtin_now. }
  intros [prec l9]. apply builtin_rbind.
  { destruct l9 as [|c [|d r]]; builtin_now. }
  intros ty. apply builtin_rbind; [|intros; exact I].
  destruct th; try exact I;
    (destruct (existsb _ _); [exact I|]);
    (destruct (existsb _ _); builtin_now).
Qed.

Lemma format_string_internal_builtin s f :
  builtin_raise (fmt.format_string_internal s f).
Proof.
  unfold fmt.format_string_internal.
  destruct (fmt.sign f) as [c|]; [destruct (Ascii.eqb c " "); builtin_now|].
  destruct (fmt.no_neg_0 f); [builtin_now|].
  destruct (fmt.alternate f); [builtin_now|].
  destruct (Ascii.eqb (fmt.align f) "="); [builtin_now|].
  destruct (_ <? _)%N; exact I.
Qed.

Lemma fill_number_builtin f locale negative prefix ds remainder :
  builtin_raise (fmt.fill_number f locale negative prefix ds remainder).
Proof.
  unfold fmt.fill_number.
  destruct (_ <? _)%Z; [exact I|].
  destruct (if Ascii.eqb (fmt.align f) "<" then _ else _) as [[lpad spad] rpad].
  exact I.
Qed.

Lemma format_long_internal_builtin z f :
  builtin_raise (fmt.format_long_internal z f).
Proof.
  unfold fmt.format_long_internal.
  destruct (bool_decide _); [builtin_now|].
  destruct (fmt.no_neg_0 f); [builtin_now|].
  apply builtin_rbind.
  { destruct (Ascii.eqb (fmt.type f) "c").
    - destruct (bool_decide _); [builtin_now|].
      destruct (fmt.alternate f); [builtin_now|].
      destruct (_ && _); exact I.
    - destruct (if Ascii.eqb (fmt.type f) "b" then _ else _). exact I. }
  intros [[[negative prefix] ds] remainder]. apply fill_number_builtin.
Qed.

Lemma format_float_internal_builtin z f :
  builtin_raise (fmt.format_float_internal z f).
Proof.
  unfold fmt.format_float_internal.
  destruct (_ <=? _)%N; [exact I|].
  apply builtin_rbind.
  { destruct (fmt.precision f) as [p|]; [|exact I].
    destruct (_ <? p)%N; [builtin_now|]. destruct (_ <? p)%N; exact I. }
  intros prec. destruct (_ <=? _)%N; [exact I|].
  destruct (textwrap.span _ _) as [ds rest]. apply fill_number_builtin.
Qed.

Lemma render_field_builtin ct o spec :
  builtin_raise (fmt.render_field ct o spec).
Proof.
  unfold fmt.render_field. destruct spec as [|c spec]; [apply str_obj_builtin|].
  assert (forall A, builtin_raise
            (let* n := fmt.type_name ct o in
             @fmt.raise_text A TypeError_id
               (lit "unsupported format string passed to " ++ lit n ++
                lit ".__format__"))) as Hun.
  { intros A. apply builtin_rbind; [apply builtin_type_name|].
    intros n. builtin_now. }
  destruct o as [[| b | z | s | l | l]|x]; try apply Hun.
  - unfold fmt.format_int.
    apply builtin_rbind; [apply parse_spec_builtin|]. intros f.
    destruct (existsb _ _); [apply format_long_internal_builtin|].
    destruct (existsb _ _); [apply format_float_internal_builtin|builtin_now].
  - unfold fmt.format_int.
    apply builtin_rbind; [apply parse_spec_builtin|]. intros f.
    destruct (existsb _ _); [apply format_long_internal_builtin|].
    destruct (existsb _ _); [apply format_float_internal_builtin|builtin_now].
  - unfold fmt.format_str.
    apply builtin_rbind; [apply parse_spec_builtin|]. intros f.
    destruct (Ascii.eqb _ _); [apply format_string_internal_builtin|].
    builtin_now.
Qed.

Lemma build_string_builtin fuel : forall depth e an l,
  builtin_raise (fmt.build_string fuel depth e an l).
Proof.
  induction fuel as [|fuel IH]; intros depth e an [|c l]; try exact I.
  rewrite build_string_step.
  destruct (Ascii.eqb c fmt.rbrace).
  { destruct l as [|d l'']; [builtin_now|].
    destruct (Ascii.eqb d fmt.rbrace); [|builtin_now].
    apply builtin_rbind; [apply IH|]. intros; exact I. }
  destruct (Ascii.eqb c fmt.lbrace).
  { destruct l as [|d l'']; [builtin_now|].
    destruct (Ascii.eqb d fmt.lbrace).
    { apply builtin_rbind; [apply IH|]. intros; exact I. }
    apply builtin_rbind; [apply parse_field_builtin|]. intros [f rest].
    apply builtin_rbind; [apply get_field_object_builtin|]. intros [o an1].
    apply builtin_rbind.
    { destruct (fmt.f_conversion f); [apply do_conversion_builtin|exact I]. }
    intros o'. apply builtin_rbind.
    { destruct (fmt.f_nested f); [|exact I].
      destruct depth as [|[|depth']]; [builtin_now..|apply IH]. }
    intros s. apply builtin_rbind; [apply render_field_builtin|]. intros out.
    apply builtin_rbind; [apply IH|]. intros; exact I. }
  apply builtin_rbind; [apply IH|]. intros; exact I.
Qed.

Lemma builtin_bind {A B} (m : M A) (k : A -> M B) :
  (forall w, builtin_raise (fst (m w))) ->
  (forall a w, builtin_raise (fst (k a w))) ->
  forall w, builtin_raise (fst (bind m k w)).
Proof.
  intros Hm Hk w. unfold bind. specialize (Hm w).
  destruct (m w) as [[a|x|y] w1]; simpl in *; auto.
Qed.

Lemma builtin_getattr {A} name (f : namespace -> option A) x w :
  builtin_raise (fst (getattr name f x w)).
Proof.
  unfold getattr. destruct (class_attr _ _ _); [exact I|].
  apply no_attribute_builtin.
Qed.

Lemma template_raises_builtin self w :
  builtin_raise (fst (UserExit.template self w)).
Proof.
  unfold UserExit.template.
  repeat first
    [ apply builtin_bind; intros
    | apply builtin_getattr
    | match goal with
      | |- context [if ?b then _ else _] => destruct b
      end
    | exact I ].
Qed.

(** Rendering raises exceptions of builtin classes only: the
    [AttributeError] of a missing attribute and the [ValueError],
    [IndexError], [KeyError] and [TypeError] of [str.format]. *)
Lemma str_raises_builtin self w : builtin_raise (fst (UserExit.__str__ self w)).
Proof.
  unfold UserExit.__str__.
  apply builtin_bind; [apply template_raises_builtin|]. intros t w1.
  apply builtin_bind; [intros; exact I|]. intros av w2.
  apply builtin_bind; [intros; exact I|]. intros ct w3.
  apply builtin_bind; [|intros; exact I]. intros w4.
  unfold lift, fmt.format. cbn [fst].
  apply builtin_rbind; [apply build_string_builtin|]. intros; exact I.
Qed.

Lemma str_of_raises_builtin ex w : builtin_raise (fst (UserExit.str_of ex w)).
Proof.
  unfold UserExit.str_of, bind, get_classes. cbn beta iota.
  destruct (class_attr (classes w) ns_str (inst_class ex)) as [[| | | |]|];
    try apply slot_str_builtin; try exact I.
  apply str_raises_builtin.
Qed.

Lemma builtin_instance_not_userexit (ct : class_table) (x : instance) :
  builtins `prefix_of` ct ->
  inst_class x < length builtins ->
  isinstance ct x UserExit_id = false.
Proof.
  intros [ext ->] Hx. unfold isinstance. by apply builtin_not_userexit.
Qed.

(** Decorating an entry point twice is decorating it once: the inner
    wrapper lets out only exceptions the outer one does not intercept
    ([SystemExit], the exceptions of rendering, and what it passed
    through itself). *)
Theorem handle_twice (fn : UserExit.callable) args kwargs (w : world) :
  builtins `prefix_of` classes (snd (fn args kwargs w)) ->
  UserExit.handle (UserExit.handle fn) args kwargs w =
  UserExit.handle fn args kwargs w.
Proof.
  intros Hp.
  destruct (fn args kwargs w) as [[v|e|why] w'] eqn:H; simpl in Hp.
  - rewrite (handle_returns fn _ _ _ _ _ H).
    by apply (handle_returns (UserExit.handle fn) _ _ _ VNone),
      (handle_returns fn _ _ _ v).
  - destruct (isinstance (classes w') e UserExit_id) eqn:Hi.
    + pose proof (handle_intercepts _ _ _ _ _ _ H Hi) as Hh.
      pose proof (str_of_raises_builtin e w') as Hb.
      destruct (fst (UserExit.str_of e w')) as [t|x|y].
      * destruct (exit_status_of (classes w') (inst_class e)) as [s|].
        { rewrite Hh. apply (handle_passes _ _ _ _ _ _ Hh).
          apply builtin_instance_not_userexit; [exact Hp|cbv; lia]. }
        destruct (@no_attribute_cases pyval (classes w') (fmt.FSelf e)
                    (lit "exit_status")) as [(x & Hx & Hc)|(y & Hy)];
          rewrite ?Hx, ?Hy in Hh; rewrite Hh.
        -- apply (handle_passes _ _ _ _ _ _ Hh).
           apply builtin_instance_not_userexit; [exact Hp|].
           rewrite Hc. cbv; lia.
        -- unfold UserExit.handle at 1, try_except, bind. by rewrite Hh.
      * rewrite Hh. apply (handle_passes _ _ _ _ _ _ Hh).
        by apply builtin_instance_not_userexit.
      * rewrite Hh. unfold UserExit.handle at 1, try_except, bind.
        by rewrite Hh.
    + pose proof (handle_passes _ _ _ _ _ _ H Hi) as Hh.
      rewrite Hh. by apply (handle_passes _ _ _ _ _ _ Hh).
  - assert (UserExit.handle fn args kwargs w = (Outside why, w')) as Hh.
    { unfold UserExit.handle, try_except, bind. by rewrite H. }
    rewrite Hh. unfold UserExit.handle at 1, try_except, bind.
    by rewrite Hh.
Qed.

Lemma handle_twice_witness :
  UserExit.handle (UserExit.handle demo_main) [] [] w_demo =
  UserExit.handle demo_main [] [] w_demo.
Proof.
  apply (handle_twice demo_main [] [] w_demo). exact demo_has_builtins.
Defined.

(** ** Formatting a formatted message *)

Lemma split_lines_cur t : forall cur,
  split_lines cur t =
  match split_lines [] t with
  | l0 :: ls => (rev cur ++ l0) :: ls
  | [] => []
  end.
Proof.
  induction t as [|x t IH]; intros cur.
  - simpl. by rewrite app_nil_r.
  - cbn [split_lines]. destruct (Ascii.eqb x nl).
    + by rewrite app_nil_r.
    + rewrite (IH (x :: cur)), (IH [x]).
      destruct (split_lines [] t); [reflexivity|].
      simpl. by rewrite <- app_assoc.
Qed.

Lemma split_lines_snoc_nl t : forall cur,
  split_lines cur (t ++ [nl]) = split_lines cur t ++ [[]].
Proof.
  induction t as [|x t IH]; intros cur; [reflexivity|].
  cbn [app split_lines]. destruct (Ascii.eqb x nl); by rewrite IH.
Qed.

Lemma not_blank_cons c l :
  isspace c = false -> forallb textwrap.is_blank (c :: l) = false.
Proof.
  intros H. simpl. destruct (textwrap.is_blank c) eqn:B; [|reflexivity].
  apply blank_isspace in B. congruence.
Qed.

Lemma not_blank_snoc l c :
  isspace c = false -> forallb textwrap.is_blank (l ++ [c]) = false.
Proof.
  intros H. rewrite forallb_app. simpl.
  destruct (textwrap.is_blank c) eqn:B.
  - apply blank_isspace in B. congruence.
  - by rewrite andb_false_r.
Qed.

Lemma visible_not_nl c : isspace c = false -> Ascii.eqb c nl = false.
Proof.
  intros H. destruct (Ascii.eqb c nl) eqn:E; [|reflexivity].
  apply Ascii.eqb_eq in E. subst c. discriminate H.
Qed.

(** White space removed in front of a text that starts with a visible
    character leaves settled lines. *)
Lemma settled_lstrip pre c t :
  Forall settled_line (tail (split_lines [] (pre ++ c :: t))) ->
  isspace c = false ->
  settled (c :: t).
Proof.
  intros H Hc. induction pre as [|x pre IH].
  - unfold settled. cbn [app split_lines] in *.
    rewrite (visible_not_nl c Hc) in *. rewrite split_lines_cur in *.
    destruct (split_lines [] t) as [|l0 ls]; [constructor|].
    constructor; [|exact H]. right. by apply not_blank_cons.
  - apply IH. cbn [app split_lines] in H. destruct (Ascii.eqb x nl).
    + simpl in H. by apply Forall_tail.
    + rewrite split_lines_cur in H.
      destruct (split_lines [] (pre ++ c :: t)); exact H.
Qed.

(** White space removed behind a text that ends with a visible
    character leaves settled lines. *)
Lemma settled_rstrip post t : forall cur c,
  Forall settled_line (split_lines cur ((t ++ [c]) ++ post)) ->
  isspace c = false ->
  Forall settled_line (split_lines cur (t ++ [c])).
Proof.
  induction t as [|x t IH]; intros cur c H Hc.
  - cbn [app split_lines]. rewrite (visible_not_nl c Hc).
    constructor; [|constructor]. right. simpl. by apply not_blank_snoc.
  - cbn [app split_lines] in *. destruct (Ascii.eqb x nl).
    + apply Forall_cons in H as [H0 H]. constructor; [exact H0|].
      by apply IH.
    + by apply IH.
Qed.

Lemma lstrip_cases l :
  lstrip l = [] \/ exists c t, lstrip l = c :: t /\ isspace c = false.
Proof.
  destruct (lstrip l) as [|c t] eqn:E; [by left|].
  right. exists c, t. split; [reflexivity|]. by apply (lstrip_head l c t).
Qed.

Lemma settled_strip t : settled t -> settled (strip t).
Proof.
  intros H. unfold strip.
  destruct (lstrip_suffix t) as [pre Hpre].
  destruct (lstrip_cases t) as [E|(c & t1 & E & Hc)].
  { rewrite E. unfold rstrip. simpl. repeat constructor. }
  assert (settled (c :: t1)) as H1.
  { apply (settled_lstrip pre); [|exact Hc].
    rewrite <- E, <- Hpre. by apply Forall_tail. }
  rewrite E. destruct (rstrip_prefix (c :: t1)) as [post Hpost].
  destruct (rstrip (c :: t1)) as [|d r] eqn:R using rev_ind.
  { repeat constructor. }
  clear IHr. unfold settled in *.
  rewrite Hpost in H1. apply (settled_rstrip post); [exact H1|].
  by apply (rstrip_last (c :: t1) r d).
Qed.

Lemma split_lines_one_line l : forall cur,
  one_line l = true -> split_lines cur l = [rev cur ++ l].
Proof.
  induction l as [|c l IH]; intros cur H.
  - simpl. by rewrite app_nil_r.
  - cbn [one_line forallb] in H. apply andb_true_iff in H as [Hc Hl].
    apply negb_true_iff in Hc. cbn [split_lines]. rewrite Hc.
    rewrite IH by exact Hl. simpl. by rewrite <- app_assoc.
Qed.

Lemma split_lines_app_nl l rest : forall cur,
  one_line l = true ->
  split_lines cur (l ++ nl :: rest) = (rev cur ++ l) :: split_lines [] rest.
Proof.
  induction l as [|c l IH]; intros cur H.
  - cbn [app split_lines]. rewrite Ascii.eqb_refl. by rewrite app_nil_r.
  - cbn [one_line forallb] in H. apply andb_true_iff in H as [Hc Hl].
    apply negb_true_iff in Hc. cbn [app split_lines]. rewrite Hc.
    rewrite IH by exact Hl. simpl. by rewrite <- app_assoc.
Qed.

(** Joining lines and splitting again gives the lines back. *)
Lemma split_join_lines L :
  L <> [] -> Forall (fun l => one_line l = true) L ->
  split_lines [] (join [nl] L) = L.
Proof.
  intros Hne H. induction H as [|l L Hl HL IH]; [by destruct Hne|].
  destruct L as [|l' L'].
  - simpl. by rewrite split_lines_one_line.
  - rewrite join_cons by discriminate.
    change (l ++ [nl] ++ join [nl] (l' :: L'))
      with (l ++ nl :: join [nl] (l' :: L')).
    rewrite split_lines_app_nl by exact Hl. by rewrite IH.
Qed.

Lemma forallb_rev {A} (p : A -> bool) l : forallb p (rev l) = forallb p l.
Proof.
  induction l as [|a l IH]; [reflexivity|]. simpl.
  rewrite forallb_app, IH. simpl. rewrite andb_true_r. apply andb_comm.
Qed.

Lemma split_lines_are_lines t : forall cur,
  one_line cur = true ->
  Forall (fun l => one_line l = true) (split_lines cur t).
Proof.
  induction t as [|c t IH]; intros cur H.
  - constructor; [|constructor]. unfold one_line in *.
    by rewrite forallb_rev.
  - cbn [split_lines]. destruct (Ascii.eqb c nl) eqn:E.
    + constructor; [|by apply IH]. unfold one_line in *.
      by rewrite forallb_rev.
    + apply IH. unfold one_line in *. simpl. by rewrite E, H.
Qed.

Lemma forallb_drop {A} (p : A -> bool) n l :
  forallb p l = true -> forallb p (drop n l) = true.
Proof.
  revert n. induction l as [|a l IH]; intros [|n] H;
    [reflexivity|reflexivity|exact H|].
  simpl in *. apply andb_true_iff in H as [_ Hl]. by apply IH.
Qed.

Lemma clear_blank_line_props l :
  one_line l = true ->
  one_line (textwrap.clear_blank_line l) = true /\
  settled_line (textwrap.clear_blank_line l).
Proof.
  intros H. unfold textwrap.clear_blank_line, settled_line.
  destruct (forallb textwrap.is_blank l) eqn:E; auto.
Qed.

Lemma remove_margin_props m l :
  forallb textwrap.is_blank m = true ->
  one_line l = true -> settled_line l ->
  one_line (textwrap.remove_margin m l) = true /\
  settled_line (textwrap.remove_margin m l).
Proof.
  intros Hm Hl Hs. unfold textwrap.remove_margin.
  destruct (startswith m l) eqn:E; [|by split].
  split; [by apply forallb_drop|].
  destruct Hs as [->|Hs]; [left; by destruct m|]. right.
  rewrite (startswith_split _ _ E), forallb_app, Hm in Hs. exact Hs.
Qed.

(** The lines of a dedented text are settled. *)
Lemma dedent_settled s : settled (textwrap.dedent s).
Proof.
  unfold textwrap.dedent.
  set (ls := map textwrap.clear_blank_line (split_lines [] s)).
  assert (Forall (fun l => one_line l = true /\ settled_line l) ls) as Hls.
  { unfold ls. apply Forall_map.
    eapply Forall_impl; [apply (split_lines_are_lines s []); reflexivity|].
    intros l Hl. by apply clear_blank_line_props. }
  assert (ls <> []) as Hne.
  { unfold ls. intros E. apply map_eq_nil in E.
    by apply (split_lines_nonempty s []). }
  assert (forall L, L <> [] ->
            Forall (fun l => one_line l = true /\ settled_line l) L ->
            settled (join [nl] L)) as Hjoin.
  { intros L HL H. unfold settled. rewrite split_join_lines; [|exact HL|].
    - eapply Forall_impl; [exact H|]. by intros l [_ ?].
    - eapply Forall_impl; [exact H|]. by intros l [? _]. }
  pose proof (fold_margin_blank (omap textwrap.indent_of ls) None I
                (indents_blank ls)) as Hm.
  destruct (fold_left _ _ _) as [[|c m]|]; try by apply Hjoin.
  apply Hjoin.
  - intros E. apply map_eq_nil in E. by apply Hne.
  - apply Forall_map. eapply Forall_impl; [exact Hls|].
    intros l [H1 H2]. by apply remove_margin_props.
Qed.

Lemma fold_margin_nil inds :
  fold_left textwrap.update_margin inds (Some []) = Some [].
Proof. induction inds as [|ind inds IH]; [reflexivity|exact IH]. Qed.

Lemma map_clear_settled ls :
  Forall settled_line ls -> map textwrap.clear_blank_line ls = ls.
Proof.
  induction 1 as [|l ls Hl _ IH]; [reflexivity|].
  cbn [map]. rewrite IH. f_equal. unfold textwrap.clear_blank_line.
  destruct Hl as [->|Hl]; [reflexivity|by rewrite Hl].
Qed.

Lemma indent_of_visible c l :
  isspace c = false -> textwrap.indent_of (c :: l) = Some [].
Proof.
  intros Hc. unfold textwrap.indent_of. rewrite (not_blank_cons c l Hc).
  cbn [textwrap.leading_blanks].
  destruct (textwrap.is_blank c) eqn:B; [|reflexivity].
  apply blank_isspace in B. congruence.
Qed.

(** [dedent] changes nothing in a text of settled lines that starts
    with a visible character. *)
Lemma dedent_fixed c t :
  isspace c = false -> settled (c :: t) ->
  textwrap.dedent (c :: t) = c :: t.
Proof.
  intros Hc Hs. unfold textwrap.dedent.
  rewrite (map_clear_settled _ Hs).
  assert (exists l0 ls, split_lines [] (c :: t) = (c :: l0) :: ls)
    as (l0 & ls & E).
  { cbn [split_lines]. rewrite (visible_not_nl c Hc), split_lines_cur.
    destruct (split_lines [] t) as [|l0 ls] eqn:E';
      [by apply split_lines_nonempty in E'|].
    by exists l0, ls. }
  assert (fold_left textwrap.update_margin
            (omap textwrap.indent_of (split_lines [] (c :: t))) None =
          Some []) as ->.
  { rewrite E.
    change (omap textwrap.indent_of ((c :: l0) :: ls))
      with (match textwrap.indent_of (c :: l0) with
            | Some y => y :: omap textwrap.indent_of ls
            | None => omap textwrap.indent_of ls
            end).
    rewrite (indent_of_visible c l0 Hc). apply fold_margin_nil. }
  apply (join_split_lines (c :: t) []).
Qed.

Lemma lstrip_visible_head c t : isspace c = false -> lstrip (c :: t) = c :: t.
Proof. intros H. simpl. by rewrite H. Qed.

(** A stripped text with a line break added strips to itself. *)
Lemma strip_snoc_nl l : strip (strip l ++ [nl]) = strip l.
Proof.
  destruct (strip l) as [|c t] eqn:E; [reflexivity|].
  pose proof (strip_head _ _ _ E) as Hc.
  assert (exists front z, c :: t = front ++ [z]) as (front & z & Ez).
  { destruct (rev (c :: t)) as [|z r] eqn:R.
    - apply (f_equal (@rev ascii)) in R. rewrite rev_involutive in R.
      discriminate R.
    - exists (rev r), z. rewrite <- (rev_involutive (c :: t)), R.
      reflexivity. }
  assert (isspace z = false) as Hz.
  { apply (strip_last l front z). by rewrite E. }
  unfold strip at 1. cbn [app]. rewrite lstrip_visible_head by exact Hc.
  change (c :: t ++ [nl]) with ((c :: t) ++ [nl]). rewrite Ez.
  unfold rstrip. rewrite !rev_app_distr. cbn [rev app lstrip].
  change (isspace nl) with true. cbn beta iota.
  rewrite Hz. cbn [rev]. by rewrite rev_involutive.
Qed.

(** [format_script] is idempotent: a message that went through it
    comes out of it unchanged. *)
Theorem format_script_idempotent (s : text) :
  format_script (format_script s) = format_script s.
Proof.
  unfold format_script.
  pose proof (settled_strip _ (dedent_settled s)) as Hs.
  destruct (strip (textwrap.dedent s)) as [|c t] eqn:E; [reflexivity|].
  pose proof (strip_head _ _ _ E) as Hc.
  rewrite <- E in *.
  assert (textwrap.dedent (strip (textwrap.dedent s) ++ [nl]) =
          strip (textwrap.dedent s) ++ [nl]) as ->.
  { rewrite E. cbn [app]. apply dedent_fixed; [exact Hc|].
    unfold settled in *. change (c :: t ++ [nl]) with ((c :: t) ++ [nl]).
    rewrite split_lines_snoc_nl. apply Forall_app. split.
    - by rewrite <- E.
    - constructor; [by left|constructor]. }
  by rewrite strip_snoc_nl.
Qed.

(** ** The step counts are enough *)

Lemma total_len_cons s seqs : total_len (s :: seqs) = length s + total_len seqs.
Proof. reflexivity. Qed.

Lemma total_len_zero seqs : total_len seqs = 0 -> forallb is_nil seqs = true.
Proof.
  induction seqs as [|s seqs IH]; [reflexivity|].
  rewrite total_len_cons. intros H. destruct s; [|simpl in H; lia].
  simpl. apply IH. simpl in H. lia.
Qed.

Lemma total_len_drop_le c seqs :
  total_len (map (drop_head c) seqs) <= total_len seqs.
Proof.
  induction seqs as [|s seqs IH]; [reflexivity|].
  cbn [map]. rewrite !total_len_cons. destruct s as [|h t]; [simpl; lia|].
  simpl. destruct (Nat.eqb h c); simpl; lia.
Qed.

Lemma total_len_drop_lt c t seqs :
  In (c :: t) seqs -> total_len (map (drop_head c) seqs) < total_len seqs.
Proof.
  induction seqs as [|s seqs IH]; [intros []|].
  cbn [map]. rewrite !total_len_cons. intros [->|H].
  - simpl. rewrite Nat.eqb_refl. pose proof (total_len_drop_le c seqs). lia.
  - specialize (IH H). destruct s as [|h t']; [simpl; lia|].
    simpl. destruct (Nat.eqb h c); simpl; lia.
Qed.

(** The linearization needs at most one step for each class of the
    merged sequences: with that much fuel or more the result is the
    same, so [None] always stands for an inconsistent hierarchy. *)
Lemma merge_aux_enough f1 : forall f2 seqs,
  total_len seqs <= f1 -> total_len seqs <= f2 ->
  merge_aux f1 seqs = merge_aux f2 seqs.
Proof.
  induction f1 as [|f1 IH]; intros f2 seqs H1 H2.
  - assert (forallb is_nil seqs = true) as N by (apply total_len_zero; lia).
    destruct f2; simpl; by rewrite N.
  - destruct (forallb is_nil seqs) eqn:N.
    { destruct f2; simpl; by rewrite N. }
    destruct f2 as [|f2].
    { assert (forallb is_nil seqs = true) by (apply total_len_zero; lia).
      congruence. }
    simpl. rewrite N.
    destruct (find_candidate seqs seqs) as [c|] eqn:F; [|reflexivity].
    apply find_candidate_spec in F as [_ [t Ht]].
    pose proof (total_len_drop_lt c t seqs Ht).
    rewrite (IH f2); [reflexivity|lia|lia].
Qed.

(** ** From the raise to the exit *)




(** ** The classes a program can reach *)

(** In every table that class statements can build, the resolution
    order of a class starts with the class, repeats no class and names
    classes of the table only; the order of a class with one base is
    the class followed by the order of that base. *)
Theorem loaded_classes_well_formed (ct : class_table) (i : class_id)
  (k : pyclass) :
  loaded ct ->
  ct !! i = Some k ->
  hd_error (cls_mro k) = Some i /\
  NoDup (cls_mro k) /\
  Forall (fun j => j < length ct) (cls_mro k) /\
  (forall p, cls_bases k = [p] ->
     exists kp, ct !! p = Some kp /\ cls_mro k = i :: cls_mro kp).
Proof. intros L Hk. exact (loaded_table_ok ct L i k Hk). Qed.

Lemma loaded_classes_well_formed_witness :
  exists k,
    test_classes !! BarAbortVariantC_id = Some k /\
    hd_error (cls_mro k) = Some BarAbortVariantC_id /\
    NoDup (cls_mro k) /\
    Forall (fun j => j < length test_classes) (cls_mro k) /\
    (forall p, cls_bases k = [p] ->
       exists kp, test_classes !! p = Some kp /\
                  cls_mro k = BarAbortVariantC_id :: cls_mro kp).
Proof.
  eexists. split; [reflexivity|].
  apply (loaded_classes_well_formed test_classes BarAbortVariantC_id);
    [exact loaded_test|reflexivity].
Defined.

(** ** A message with a placeholder *)





(** ** [demo.py] from [main] to the exit *)







Lemma demo_has_no_typeerror_exit :
  isinstance demo_classes (exc TypeError_id "") UserExit_id = false.
Proof. reflexivity. Qed.


